(** * Allegro 5 timer core for Unix (src/unix/utimernu.c)

    A shallow embedding of the background timer subsystem: the timer
    objects, the registry of active timers, the per-cycle advance run by the
    driver thread, and the public timer API.

    Modelling conventions.
    - [long] (and its typedefs [msecs_t], [usecs_t]) is a 64-bit two's
      complement integer (LP64 Unix); every arithmetic operation of the
      source is followed by an explicit wrap-around.
    - Pointers to timers are keys of a finite map (the heap of timer
      objects); the registry [active_timers] is the list of the pointers
      stored in the vector, in slot order.  A pointer argument is never
      NULL, so [ASSERT(this)] holds by typing; dereferencing an address that
      holds no live timer is the error [BadPointer].
    - Every critical section of the source (the region between
      [_al_mutex_lock] and [_al_mutex_unlock]) is one atomic transition of
      the world.
    - The [while] loop of the driver thread takes fuel; running out of fuel
      is an error of its own, so that a result is never confused with a
      loop that does not return. *)

From Stdlib Require Import ZArith Lia List Bool.
From stdpp Require Import base option list gmap.

Local Open Scope Z_scope.

(** ** Machine integers *)

Module Long.

Definition bits : Z := 64.
Definition modulus : Z := 2 ^ bits.
Definition half_modulus : Z := 2 ^ (bits - 1).
Definition min_signed : Z := - half_modulus.
Definition max_signed : Z := half_modulus - 1.

(** The value a [long] holds after an operation whose exact result is [z]. *)
Definition wrap (z : Z) : Z := (z + half_modulus) mod modulus - half_modulus.

Definition add (x y : Z) : Z := wrap (x + y).
Definition sub (x y : Z) : Z := wrap (x - y).
Definition mul (x y : Z) : Z := wrap (x * y).
(** C division and remainder truncate towards zero. *)
Definition div (x y : Z) : Z := wrap (Z.quot x y).
Definition rem (x y : Z) : Z := Z.rem x y.

Definition in_range (z : Z) : Prop := min_signed <= z <= max_signed.

End Long.

(** readability typedefs *)
Definition msecs_t : Type := Z.
Definition usecs_t : Type := Z.

(** ** Errors *)

Inductive error : Type :=
| AssertFailed   (* an ASSERT of a debug build failed *)
| BadPointer     (* a pointer that names no live timer was dereferenced *)
| OutOfFuel.     (* the catch-up loop did not finish within its fuel *)

Inductive result (A : Type) : Type :=
| Done (a : A)
| Err (e : error).
Arguments Done {A} a.
Arguments Err {A} e.

#[global] Instance result_ret : MRet result := fun _ a => Done a.
#[global] Instance result_bind : MBind result := fun _ _ f m =>
  match m with
  | Done a => f a
  | Err e => Err e
  end.

(** [ASSERT] comes from the Allegro headers: it checks its condition in a
    debug build and expands to nothing in a release build.  The build kind
    is a parameter of every function that asserts. *)
Definition ASSERT (debugmode : bool) (cond : bool) : result unit :=
  if debugmode && negb cond then Err AssertFailed else Done ().

(** A computation with fuel returns [a] when it does so for all large
    enough amounts of fuel. *)
Definition runs_to {A : Type} (f : nat → result A) (a : A) : Prop :=
  ∃ n : nat, ∀ m : nat, (n ≤ m)%nat → f m = Done a.

(** ** Event source *)

Inductive ALLEGRO_EVENT_TYPE : Type :=
| ALLEGRO_EVENT_TIMER
| ALLEGRO_EVENT_OTHER (code : Z).

Record ALLEGRO_EVENT : Type := {
  ev_type : ALLEGRO_EVENT_TYPE;
  ev_timestamp : Z;
  ev_count : Z
}.

(** Modelled from the spec: the event source (aintern_events.h and its
    implementation) is an external primitive, not part of the timer file.
    It is a multi-subscriber channel that hands out event buffers and queues
    published events.  [es_queues] counts the subscribers, [es_unused] the
    event buffers the source can still hand out (its free list together with
    what the allocator can still supply), [es_emitted] the events published
    so far, oldest first.  Subscribers and buffers are changed by the rest
    of the system, never by the timer code. *)
Record ALLEGRO_EVENT_SOURCE : Type := {
  es_queues : nat;
  es_unused : nat;
  es_emitted : list ALLEGRO_EVENT
}.

(** Modelled from the spec: [_al_event_source_init] gives a source without
    subscribers, with an empty free list and without published events. *)
Definition _al_event_source_init : ALLEGRO_EVENT_SOURCE :=
  {| es_queues := 0; es_unused := 0; es_emitted := [] |}.

(** Modelled from the spec: "does anyone need an event". *)
Definition _al_event_source_needs_to_generate_event
    (es : ALLEGRO_EVENT_SOURCE) : bool :=
  negb (Nat.eqb (es_queues es) 0).

(** Modelled from the spec: acquiring an event buffer fails (NULL) when the
    buffers are exhausted; otherwise one buffer is taken. *)
Definition _al_event_source_get_unused_event
    (es : ALLEGRO_EVENT_SOURCE) : option ALLEGRO_EVENT_SOURCE :=
  match es_unused es with
  | O => None
  | S n => Some {| es_queues := es_queues es; es_unused := n;
                   es_emitted := es_emitted es |}
  end.

(** Modelled from the spec: publishing appends the event to the channel. *)
Definition _al_event_source_emit_event
    (es : ALLEGRO_EVENT_SOURCE) (ev : ALLEGRO_EVENT) : ALLEGRO_EVENT_SOURCE :=
  {| es_queues := es_queues es; es_unused := es_unused es;
     es_emitted := es_emitted es ++ [ev] |}.

(** ** Timer objects *)

Record ALLEGRO_TIMER : Type := {
  es : ALLEGRO_EVENT_SOURCE;
  started : bool;
  speed_usecs : usecs_t;
  count : Z;
  counter : Z            (* counts down to zero=blastoff *)
}.

Definition set_es (v : ALLEGRO_EVENT_SOURCE) (t : ALLEGRO_TIMER) :=
  {| es := v; started := started t; speed_usecs := speed_usecs t;
     count := count t; counter := counter t |}.
Definition set_started (v : bool) (t : ALLEGRO_TIMER) :=
  {| es := es t; started := v; speed_usecs := speed_usecs t;
     count := count t; counter := counter t |}.
Definition set_speed_usecs (v : usecs_t) (t : ALLEGRO_TIMER) :=
  {| es := es t; started := started t; speed_usecs := v;
     count := count t; counter := counter t |}.
Definition set_count (v : Z) (t : ALLEGRO_TIMER) :=
  {| es := es t; started := started t; speed_usecs := speed_usecs t;
     count := v; counter := counter t |}.
Definition set_counter (v : Z) (t : ALLEGRO_TIMER) :=
  {| es := es t; started := started t; speed_usecs := speed_usecs t;
     count := count t; counter := v |}.

(** [al_current_time] belongs to the system driver.  Its readings are an
    input: [clock k] is what the k-th call returns. *)
Definition al_current_time (clock : nat → Z) (k : nat) : Z * nat :=
  (clock k, S k).

(** timer_handle_tick: [timer thread]
    Handle a single tick.  [k] counts the clock readings taken so far. *)
Definition timer_handle_tick (clock : nat → Z) (this : ALLEGRO_TIMER) (k : nat)
    : ALLEGRO_TIMER * nat :=
  (* Update the count. *)
  let this := set_count (Long.add (count this) 1) this in
  (* Generate an event, maybe. *)
  if _al_event_source_needs_to_generate_event (es this) then
    match _al_event_source_get_unused_event (es this) with
    | Some es1 =>
        let '(now, k') := al_current_time clock k in
        let event := {| ev_type := ALLEGRO_EVENT_TIMER;
                        ev_timestamp := now;
                        ev_count := count this |} in
        (set_es (_al_event_source_emit_event es1 event) this, k')
    | None => (this, k)
    end
  else (this, k).

(** The inner loop of [timer_thread_handle_tick]:
    [while (timer->counter <= 0) { timer->counter += timer->speed_usecs;
                                   timer_handle_tick(timer); }] *)
Fixpoint catch_up (fuel : nat) (clock : nat → Z) (timer : ALLEGRO_TIMER)
    (k : nat) {struct fuel} : result (ALLEGRO_TIMER * nat) :=
  if counter timer <=? 0 then
    match fuel with
    | O => Err OutOfFuel
    | S fuel' =>
        let timer1 :=
          set_counter (Long.add (counter timer) (speed_usecs timer)) timer in
        let '(timer2, k') := timer_handle_tick clock timer1 k in
        catch_up fuel' clock timer2 k'
    end
  else Done (timer, k).

(** The work done on one slot of the registry, up to the end of the catch-up
    loop: [timer->counter -= interval;] and the loop. *)
Definition advance_timer (fuel : nat) (clock : nat → Z) (interval : usecs_t)
    (timer : ALLEGRO_TIMER) (k : nat) : result (ALLEGRO_TIMER * nat) :=
  catch_up fuel clock
    (set_counter (Long.sub (counter timer) interval) timer) k.

(** ** The world: timer objects, registry, driver thread *)

(** A pointer to a timer object is an address of the heap. *)
Abbreviation ptr := positive (only parsing).

Record world : Type := {
  heap : gmap positive ALLEGRO_TIMER;   (* the live timer objects *)
  active_timers : list ptr;             (* _AL_VECTOR of ALLEGRO_TIMER * *)
  timer_thread : bool;                  (* the driver thread exists *)
  time_calls : nat                      (* clock readings taken so far *)
}.

Definition set_heap (h : gmap positive ALLEGRO_TIMER) (w : world) : world :=
  {| heap := h; active_timers := active_timers w;
     timer_thread := timer_thread w; time_calls := time_calls w |}.
Definition set_active_timers (l : list ptr) (w : world) : world :=
  {| heap := heap w; active_timers := l;
     timer_thread := timer_thread w; time_calls := time_calls w |}.
Definition set_timer_thread (b : bool) (w : world) : world :=
  {| heap := heap w; active_timers := active_timers w;
     timer_thread := b; time_calls := time_calls w |}.
Definition set_time_calls (k : nat) (w : world) : world :=
  {| heap := heap w; active_timers := active_timers w;
     timer_thread := timer_thread w; time_calls := k |}.

(** Before the first call: no timer object, an empty vector, no thread. *)
Definition initial_world : world :=
  {| heap := ∅; active_timers := []; timer_thread := false; time_calls := 0 |}.

(** [*this] for a pointer argument. *)
Definition deref (this : ptr) (w : world) : result ALLEGRO_TIMER :=
  match heap w !! this with
  | Some t => Done t
  | None => Err BadPointer
  end.

(** [*this = t]. *)
Definition assign (this : ptr) (t : ALLEGRO_TIMER) (w : world) : world :=
  set_heap (<[this := t]> (heap w)) w.

(** The vector operations come from the Allegro vector module.
    Modelled from the spec: [_al_vector_alloc_back] appends a slot at the
    end of the registry. *)
Definition _al_vector_alloc_back (l : list ptr) (p : ptr) : list ptr :=
  l ++ [p].

(** Modelled from the spec: [_al_vector_find_and_delete] removes the timer
    from the registry: the first slot that holds the pointer is deleted. *)
Fixpoint _al_vector_find_and_delete (l : list ptr) (p : ptr) : list ptr :=
  match l with
  | [] => []
  | q :: l' => if decide (q = p) then l' else q :: _al_vector_find_and_delete l' p
  end.

Definition _al_vector_size (l : list ptr) : nat := length l.

(** *** The driver thread *)

Definition default_delay : usecs_t := 0x8000.

(** The [for] loop of [timer_thread_handle_tick] over the slots still to be
    visited.  Nothing in the loop changes the vector, so the slots are those
    of the registry on entry. *)
Fixpoint handle_tick_slots (fuel : nat) (clock : nat → Z) (interval : usecs_t)
    (slots : list ptr) (new_delay : usecs_t) (w : world)
    : result (usecs_t * world) :=
  match slots with
  | [] => Done (new_delay, w)
  | slot :: slots' =>
      timer ← deref slot w;
      '(timer', k') ← advance_timer fuel clock interval timer (time_calls w);
      let w' := set_time_calls k' (assign slot timer' w) in
      let new_delay' :=
        if (0 <? counter timer') && (counter timer' <? new_delay)
        then counter timer' else new_delay in
      handle_tick_slots fuel clock interval slots' new_delay' w'
  end.

(** timer_thread_handle_tick: [timer thread]
    Call handle_tick() method of every timer in active_timers, and
    returns the duration that the timer thread should try to sleep
    next time. *)
Definition timer_thread_handle_tick (fuel : nat) (clock : nat → Z)
    (interval : usecs_t) (w : world) : result (usecs_t * world) :=
  handle_tick_slots fuel clock interval (active_timers w) default_delay w.

Record timeval : Type := { tv_sec : Z; tv_usec : Z }.

(** The locals of [timer_thread_proc] that survive an iteration. *)
Record thread_locals : Type := {
  old_time : timeval;
  interval : usecs_t
}.

(** [timer_thread_proc] up to its loop: [interval = 0x8000] and the first
    reading of the time of day. *)
Definition timer_thread_proc_enter (now : timeval) : thread_locals :=
  {| old_time := now; interval := 0x8000 |}.

(** The delay handed to [select] at the top of an iteration. *)
Definition select_delay (l : thread_locals) : timeval :=
  {| tv_sec := Long.div (interval l) 1000000;
     tv_usec := Long.rem (interval l) 1000000 |}.

(** One iteration of the loop of [timer_thread_proc] after the sleep:
    [new_time] is what [gettimeofday] reads once the mutex is held. *)
Definition timer_thread_proc_iteration (fuel : nat) (clock : nat → Z)
    (new_time : timeval) (l : thread_locals) (w : world)
    : result (thread_locals * world) :=
  (* Calculate actual time elapsed. *)
  let elapsed :=
    Long.add
      (Long.mul (Long.sub (tv_sec new_time) (tv_sec (old_time l))) 1000000)
      (Long.sub (tv_usec new_time) (tv_usec (old_time l))) in
  (* Handle a tick. *)
  '(next, w') ← timer_thread_handle_tick fuel clock elapsed w;
  mret ({| old_time := new_time; interval := next |}, w').

(** *** Timer objects: the public operations *)

(** al_install_timer: [primary thread]
    Create a new timer object.  [malloc] is what [_AL_MALLOC] returns:
    [None] for NULL, otherwise the address of the new object. *)
Definition al_install_timer (debugmode : bool) (malloc : option ptr)
    (speed_msecs : msecs_t) (w : world) : result (option ptr * world) :=
  _ ← ASSERT debugmode (0 <? speed_msecs);
  _ ← ASSERT debugmode (bool_decide (is_Some malloc));
  match malloc with
  | Some timer =>
      let obj := {| es := _al_event_source_init;
                    started := false;
                    count := 0;
                    speed_usecs := Long.mul speed_msecs 1000;
                    counter := 0 |} in
      mret (Some timer, assign timer obj w)
  | None => mret (None, w)
  end.

(** al_start_timer: [primary thread]
    Start this timer.  If it is the first started timer, the
    background timer thread is subsequently started. *)
Definition al_start_timer (this : ptr) (w : world) : result world :=
  t ← deref this w;
  if started t then mret w
  else
    let t' := set_counter (speed_usecs t) (set_started true t) in
    let w1 := set_active_timers
                (_al_vector_alloc_back (active_timers w) this)
                (assign this t' w) in
    let new_size := _al_vector_size (active_timers w1) in
    if Nat.eqb new_size 1 then mret (set_timer_thread true w1) else mret w1.

(** al_stop_timer: [primary thread]
    Stop this timer.  If it is the last started timer, the background
    timer thread is subsequently stopped. *)
Definition al_stop_timer (this : ptr) (w : world) : result world :=
  t ← deref this w;
  if negb (started t) then mret w
  else
    let w1 := assign this (set_started false t)
                (set_active_timers
                   (_al_vector_find_and_delete (active_timers w) this) w) in
    let new_size := _al_vector_size (active_timers w1) in
    if Nat.eqb new_size 0
    then mret (set_active_timers [] (set_timer_thread false w1))
    else mret w1.

(** al_uninstall_timer: [primary thread]
    Destroy this timer object. *)
Definition al_uninstall_timer (this : ptr) (w : world) : result world :=
  w1 ← al_stop_timer this w;
  mret (set_heap (delete this (heap w1)) w1).

(** al_timer_is_started: [primary thread]
    Return if this timer is started. *)
Definition al_timer_is_started (this : ptr) (w : world) : result bool :=
  t ← deref this w; mret (started t).

(** al_timer_get_speed: [primary thread]
    Return this timer's speed. *)
Definition al_timer_get_speed (this : ptr) (w : world) : result msecs_t :=
  t ← deref this w; mret (Long.div (speed_usecs t) 1000).

(** al_timer_set_speed: [primary thread]
    Change this timer's speed. *)
Definition al_timer_set_speed (debugmode : bool) (this : ptr)
    (new_speed_msecs : msecs_t) (w : world) : result world :=
  _ ← ASSERT debugmode (0 <? new_speed_msecs);
  t ← deref this w;
  let t1 :=
    if started t then
      let t' := set_counter (Long.sub (counter t) (speed_usecs t)) t in
      set_counter (Long.add (counter t') (Long.mul new_speed_msecs 1000)) t'
    else t in
  mret (assign this (set_speed_usecs (Long.mul new_speed_msecs 1000) t1) w).

(** al_timer_get_count: [primary thread]
    Return this timer's count. *)
Definition al_timer_get_count (this : ptr) (w : world) : result Z :=
  t ← deref this w; mret (count t).

(** al_timer_set_count: [primary thread]
    Change this timer's count. *)
Definition al_timer_set_count (this : ptr) (new_count : Z) (w : world)
    : result world :=
  t ← deref this w;
  mret (assign this (set_count new_count t) w).

(** ** Notions used in the statements *)

(** The body of the [while] loop, on the timer and the count of clock
    readings. *)
Definition fire (clock : nat → Z) (s : ALLEGRO_TIMER * nat)
    : ALLEGRO_TIMER * nat :=
  timer_handle_tick clock
    (set_counter (Long.add (counter s.1) (speed_usecs s.1)) s.1) s.2.

(** The number of rounds of the loop for a countdown [d] and a period [P]. *)
Definition rounds (d P : Z) : Z := if d <=? 0 then (- d) / P + 1 else 0.


(** Every slot holds a live timer with a positive period. *)
Definition periods_ok (w : world) (slots : list ptr) : Prop :=
  ∀ p, p ∈ slots →
    ∃ t, heap w !! p = Some t
         ∧ 0 < speed_usecs t ∧ Long.in_range (speed_usecs t).

(** The countdowns of the timers in the given slots. *)
Definition countdowns (w : world) (slots : list ptr) : list Z :=
  omap (λ p, counter <$> heap w !! p) slots.


(** How often a pointer occurs in the registry. *)
Definition occurrences (p : ptr) (l : list ptr) : nat :=
  length (filter (λ q, q = p) l).

(** One atomic transition of the world: a call of the public API by an
    application thread, one cycle of the driver thread, or a change made to
    the event source of a timer by the rest of the system. *)
Inductive step : world → world → Prop :=
| step_install debugmode malloc speed_msecs w r w' :
    (∀ p, malloc = Some p → heap w !! p = None) →
    al_install_timer debugmode malloc speed_msecs w = Done (r, w') →
    step w w'
| step_uninstall this w w' :
    al_uninstall_timer this w = Done w' → step w w'
| step_start this w w' :
    al_start_timer this w = Done w' → step w w'
| step_stop this w w' :
    al_stop_timer this w = Done w' → step w w'
| step_set_speed debugmode this new_speed_msecs w w' :
    al_timer_set_speed debugmode this new_speed_msecs w = Done w' → step w w'
| step_set_count this new_count w w' :
    al_timer_set_count this new_count w = Done w' → step w w'
| step_cycle fuel clock elapsed w next w' :
    timer_thread_handle_tick fuel clock elapsed w = Done (next, w') →
    step w w'
| step_event_source this t es' w :
    heap w !! this = Some t →
    step w (assign this (set_es es' t) w).

Inductive reachable : world → Prop :=
| reachable_initial : reachable initial_world
| reachable_step w w' : reachable w → step w w' → reachable w'.

(** The invariant in its inductive form: the registry has no duplicates
    and holds exactly the live timers whose running flag is set. *)
Definition registry_inv (w : world) : Prop :=
  NoDup (active_timers w)
  ∧ ∀ p, p ∈ active_timers w ↔ started <$> heap w !! p = Some true.

(** The loop of [timer_thread_proc] for a run of the thread on its own: the
    stop request is seen after [length wakes] iterations, [wakes] holds what
    [gettimeofday] reads in each of them, and no other thread takes the
    mutex in between.  The result lists the delays handed to [select], in
    order. *)
Fixpoint timer_thread_proc_loop (fuel : nat) (clock : nat → Z)
    (wakes : list timeval) (l : thread_locals) (w : world)
    : result (list timeval * (thread_locals * world)) :=
  match wakes with
  | [] => mret ([], (l, w))
  | new_time :: wakes' =>
      let delay := select_delay l in
      '(l', w') ← timer_thread_proc_iteration fuel clock new_time l w;
      '(delays, final) ← timer_thread_proc_loop fuel clock wakes' l' w';
      mret (delay :: delays, final)
  end.

(** timer_thread_proc: [timer thread]
    The timer thread procedure itself.  [start] is the reading of the time
    of day taken before the loop. *)
Definition timer_thread_proc (fuel : nat) (clock : nat → Z)
    (start : timeval) (wakes : list timeval) (w : world)
    : result (list timeval * (thread_locals * world)) :=
  timer_thread_proc_loop fuel clock wakes (timer_thread_proc_enter start) w.

(** The time of day in microseconds. *)
Definition total_usecs (tv : timeval) : Z := tv_sec tv * 1000000 + tv_usec tv.

(** The driver thread exists exactly while the registry is not empty. *)
Definition thread_inv (w : world) : Prop :=
  timer_thread w = true ↔ active_timers w ≠ [].

(** Two small worlds for the examples: one timer of 10 ms at address 1,
    just created, and the same timer just started. *)
Definition one_timer_created : world :=
  assign 1%positive
    {| es := _al_event_source_init; started := false;
       speed_usecs := 10000; count := 0; counter := 0 |}
    initial_world.

Definition one_timer_started : world :=
  {| heap := {[ 1%positive :=
                  {| es := _al_event_source_init; started := true;
                     speed_usecs := 10000; count := 0; counter := 10000 |} ]};
     active_timers := [1%positive];
     timer_thread := true;
     time_calls := 0 |}.

(** A timer created with 2^62 ms in a debug build and started: its stored
    period and its countdown are 0. *)
Definition zero_period_started : world :=
  {| heap := {[ 1%positive :=
                  {| es := _al_event_source_init; started := true;
                     speed_usecs := 0; count := 0; counter := 0 |} ]};
     active_timers := [1%positive];
     timer_thread := true;
     time_calls := 0 |}.

(** * Properties *)

(** ** Machine arithmetic *)

Lemma in_range_bounds z :
  Long.in_range z ↔ - 9223372036854775808 <= z <= 9223372036854775807.
Proof. reflexivity. Qed.

Lemma wrap_id z : Long.in_range z → Long.wrap z = z.
Proof.
  rewrite in_range_bounds. intros Hz. unfold Long.wrap.
  change Long.half_modulus with 9223372036854775808.
  change Long.modulus with 18446744073709551616.
  rewrite Z.mod_small; lia.
Qed.

Lemma wrap_in_range z : Long.in_range (Long.wrap z).
Proof.
  rewrite in_range_bounds. unfold Long.wrap.
  change Long.half_modulus with 9223372036854775808.
  change Long.modulus with 18446744073709551616.
  pose proof (Z.mod_pos_bound (z + 9223372036854775808)
                18446744073709551616 ltac:(lia)).
  lia.
Qed.

(** Wrapping an operand first does not change a wrapped sum. *)
Lemma wrap_add_l x y : Long.wrap (Long.wrap x + y) = Long.wrap (x + y).
Proof.
  unfold Long.wrap. f_equal.
  replace ((x + Long.half_modulus) mod Long.modulus - Long.half_modulus
           + y + Long.half_modulus)
    with ((x + Long.half_modulus) mod Long.modulus + y) by lia.
  rewrite Zplus_mod_idemp_l. f_equal. lia.
Qed.

Lemma add_exact x y : Long.in_range (x + y) → Long.add x y = x + y.
Proof. apply wrap_id. Qed.

Lemma sub_exact x y : Long.in_range (x - y) → Long.sub x y = x - y.
Proof. apply wrap_id. Qed.

Lemma mul_exact x y : Long.in_range (x * y) → Long.mul x y = x * y.
Proof. apply wrap_id. Qed.

(** ** Running with fuel *)

Lemma runs_to_unique {A} (f : nat → result A) (a b : A) :
  runs_to f a → runs_to f b → a = b.
Proof.
  intros [n Hn] [m Hm].
  specialize (Hn (n `max` m)%nat ltac:(lia)).
  specialize (Hm (n `max` m)%nat ltac:(lia)).
  congruence.
Qed.

(** ** A single tick *)

(** The three outcomes of a tick: no subscriber, no buffer, published. *)
Ltac tick_outcomes t :=
  unfold timer_handle_tick; simpl;
  destruct (_al_event_source_needs_to_generate_event (es t)); [|done];
  by destruct (_al_event_source_get_unused_event (es t)).

Lemma timer_handle_tick_started clock t k :
  started (timer_handle_tick clock t k).1 = started t.
Proof. tick_outcomes t. Qed.

Lemma timer_handle_tick_speed clock t k :
  speed_usecs (timer_handle_tick clock t k).1 = speed_usecs t.
Proof. tick_outcomes t. Qed.

Lemma timer_handle_tick_counter clock t k :
  counter (timer_handle_tick clock t k).1 = counter t.
Proof. tick_outcomes t. Qed.

Lemma timer_handle_tick_count clock t k :
  count (timer_handle_tick clock t k).1 = Long.add (count t) 1.
Proof. tick_outcomes t. Qed.

(** ** The catch-up loop *)

Section CatchUp.

Context (clock : nat → Z).

Lemma catch_up_done fuel t k :
  0 < counter t → catch_up fuel clock t k = Done (t, k).
Proof.
  intros H. destruct fuel; simpl;
    destruct (counter t <=? 0) eqn:E; try done; apply Z.leb_le in E; lia.
Qed.

Lemma catch_up_step fuel t k :
  counter t <= 0 →
  catch_up (S fuel) clock t k =
    catch_up fuel clock (fire clock (t, k)).1 (fire clock (t, k)).2.
Proof.
  intros H. simpl. apply Z.leb_le in H. rewrite H.
  unfold fire. simpl. by destruct (timer_handle_tick _ _ _).
Qed.

Lemma fire_speed s : speed_usecs (fire clock s).1 = speed_usecs s.1.
Proof. unfold fire. by rewrite timer_handle_tick_speed. Qed.

Lemma fire_started s : started (fire clock s).1 = started s.1.
Proof. unfold fire. by rewrite timer_handle_tick_started. Qed.

Lemma fire_counter s :
  counter (fire clock s).1 = Long.add (counter s.1) (speed_usecs s.1).
Proof. unfold fire. by rewrite timer_handle_tick_counter. Qed.

Lemma fire_count s : count (fire clock s).1 = Long.add (count s.1) 1.
Proof. unfold fire. by rewrite timer_handle_tick_count. Qed.

Lemma iter_fire_speed n s :
  speed_usecs (Nat.iter n (fire clock) s).1 = speed_usecs s.1.
Proof. induction n; simpl; [done|]. by rewrite fire_speed. Qed.

Lemma iter_fire_started n s :
  started (Nat.iter n (fire clock) s).1 = started s.1.
Proof. induction n; simpl; [done|]. by rewrite fire_started. Qed.

Lemma iter_fire_count n s :
  Long.in_range (count s.1) →
  count (Nat.iter n (fire clock) s).1 = Long.wrap (count s.1 + Z.of_nat n).
Proof.
  intros Hr. induction n as [|n IH].
  - simpl. rewrite Z.add_0_r. symmetry. by apply wrap_id.
  - simpl Nat.iter. rewrite fire_count, IH. unfold Long.add.
    rewrite wrap_add_l. f_equal. lia.
Qed.

(** As long as the countdown has not yet become positive, adding the
    period cannot leave the range of a [long], so after [n] rounds the
    countdown is exactly [n] periods larger. *)
Lemma iter_fire_counter n s :
  Long.in_range (counter s.1) →
  0 < speed_usecs s.1 → Long.in_range (speed_usecs s.1) →
  ((0 < n)%nat → counter s.1 + (Z.of_nat n - 1) * speed_usecs s.1 <= 0) →
  counter (Nat.iter n (fire clock) s).1
    = counter s.1 + Z.of_nat n * speed_usecs s.1.
Proof.
  intros Hc Hp Hpr. induction n as [|n IH]; intros Hle.
  - simpl. lia.
  - specialize (Hle ltac:(lia)).
    simpl Nat.iter. rewrite fire_counter, iter_fire_speed, IH by (intros; nia).
    rewrite add_exact; [lia|].
    rewrite in_range_bounds in *. nia.
Qed.

Lemma catch_up_iter n : ∀ t k fuel,
  (∀ i, (i < n)%nat → counter (Nat.iter i (fire clock) (t, k)).1 <= 0) →
  0 < counter (Nat.iter n (fire clock) (t, k)).1 →
  (n ≤ fuel)%nat →
  catch_up fuel clock t k = Done (Nat.iter n (fire clock) (t, k)).
Proof.
  induction n as [|n IH]; intros t k fuel Hle Hpos Hfuel.
  - simpl in *. by apply catch_up_done.
  - destruct fuel as [|fuel]; [lia|].
    rewrite catch_up_step by (apply (Hle 0%nat); lia).
    rewrite Nat.iter_succ_r in Hpos |- *.
    destruct (fire clock (t, k)) as [t1 k1] eqn:Hf. simpl.
    apply IH; [|done|lia].
    intros i Hi. specialize (Hle (S i) ltac:(lia)).
    by rewrite Nat.iter_succ_r, Hf in Hle.
Qed.

Lemma rounds_spec d P :
  0 < P →
  0 <= rounds d P
  ∧ 0 < d + rounds d P * P
  ∧ (0 < rounds d P → d + (rounds d P - 1) * P <= 0).
Proof.
  intros HP. unfold rounds. destruct (d <=? 0) eqn:E.
  - apply Z.leb_le in E.
    pose proof (Z.div_pos (- d) P ltac:(lia) HP).
    pose proof (Z.mul_div_le (- d) P HP).
    pose proof (Z.mul_succ_div_gt (- d) P HP).
    nia.
  - apply Z.leb_gt in E. lia.
Qed.

Lemma catch_up_rounds t k :
  Long.in_range (counter t) →
  0 < speed_usecs t → Long.in_range (speed_usecs t) →
  let n := Z.to_nat (rounds (counter t) (speed_usecs t)) in
  runs_to (λ fuel, catch_up fuel clock t k) (Nat.iter n (fire clock) (t, k))
  ∧ counter (Nat.iter n (fire clock) (t, k)).1
      = counter t + rounds (counter t) (speed_usecs t) * speed_usecs t.
Proof.
  intros Hc HP HPr n.
  destruct (rounds_spec (counter t) (speed_usecs t) HP) as (Hn0 & Hpos & Hlast).
  assert (Hcnt : ∀ i, (i ≤ n)%nat →
            counter (Nat.iter i (fire clock) (t, k)).1
              = counter t + Z.of_nat i * speed_usecs t).
  { intros i Hi. apply (iter_fire_counter i (t, k)); simpl; try done.
    intros Hi0. subst n. nia. }
  split.
  - exists n. intros m Hm. apply catch_up_iter; [|by rewrite Hcnt; subst n; lia|done].
    intros i Hi. rewrite Hcnt by lia. subst n.
    assert (0 < rounds (counter t) (speed_usecs t)) by lia. nia.
  - rewrite Hcnt by lia. subst n. by rewrite Z2Nat.id.
Qed.

End CatchUp.

Example advance_stall_three_and_a_half_periods :
  advance_timer 5 (λ _, 0) 3500
    {| es := _al_event_source_init; started := true;
       speed_usecs := 1000; count := 0; counter := 1000 |} 0
  = Done ({| es := _al_event_source_init; started := true;
             speed_usecs := 1000; count := 3; counter := 500 |}, 0%nat).
Proof. reflexivity. Qed.

(** ** The public operations *)

Lemma deref_Some this w t : heap w !! this = Some t → deref this w = Done t.
Proof. unfold deref. by intros ->. Qed.

Lemma ASSERT_true debugmode : ASSERT debugmode true = Done ().
Proof. unfold ASSERT. by rewrite andb_false_r. Qed.

(** C5: Start is idempotent.  On a running timer it changes nothing at all.
    On a timer that is not running it sets the running flag, sets the
    countdown to the current period and appends the timer to the registry;
    tick count, period and event source stay as they were, and a second
    Start changes nothing more. *)
Theorem start_is_idempotent (this : ptr) (w : world) (t : ALLEGRO_TIMER) :
  heap w !! this = Some t →
  (started t = true → al_start_timer this w = Done w)
  ∧ (started t = false →
     ∃ w' t',
       al_start_timer this w = Done w'
       ∧ heap w' = <[this := t']> (heap w)
       ∧ started t' = true
       ∧ counter t' = speed_usecs t
       ∧ speed_usecs t' = speed_usecs t
       ∧ count t' = count t
       ∧ es t' = es t
       ∧ active_timers w' = active_timers w ++ [this]
       ∧ al_start_timer this w' = Done w').
Proof.
  intros Hlook. unfold al_start_timer at 1 2.
  rewrite (deref_Some _ _ _ Hlook). simpl.
  split; intros Hs; rewrite Hs; [done|].
  set (t' := set_counter (speed_usecs t) (set_started true t)).
  assert (Hagain : ∀ w', heap w' = <[this := t']> (heap w) →
            al_start_timer this w' = Done w').
  { intros w' Hh. unfold al_start_timer, deref.
    by rewrite Hh, lookup_insert_eq. }
  destruct (Nat.eqb _ _); eexists _, t'; simpl;
    (split; [reflexivity|]); repeat split; by try apply Hagain.
Qed.

Lemma start_is_idempotent_witness :
  let t := {| es := _al_event_source_init; started := false;
              speed_usecs := 10000; count := 4; counter := 0 |} in
  let w := {| heap := {[ 1%positive := t ]}; active_timers := [];
              timer_thread := false; time_calls := 0 |} in
  ∃ w' t',
    al_start_timer 1%positive w = Done w'
    ∧ heap w' !! 1%positive = Some t'
    ∧ started t' = true ∧ counter t' = 10000
    ∧ active_timers w' = [1%positive]
    ∧ al_start_timer 1%positive w' = Done w'.
Proof.
  intros t w.
  destruct (start_is_idempotent 1%positive w t) as [_ Hfresh]; [reflexivity|].
  destruct Hfresh as (w' & t' & Hrun & Hheap & Hs & Hc & _ & _ & _ & Hact & Hidem);
    [reflexivity|].
  exists w', t'. rewrite Hheap, lookup_insert_eq. repeat split; done.
Defined.

(** C8: SetCount stores exactly the given value in the tick count and
    changes nothing else: countdown, period, running flag and event source of
    the timer, the other timers, the registry and the driver thread are as
    before. *)
Theorem set_count_changes_only_the_count
    (this : ptr) (new_count : Z) (w : world) (t : ALLEGRO_TIMER) :
  heap w !! this = Some t →
  ∃ w' t',
    al_timer_set_count this new_count w = Done w'
    ∧ heap w' !! this = Some t'
    ∧ count t' = new_count
    ∧ counter t' = counter t
    ∧ speed_usecs t' = speed_usecs t
    ∧ started t' = started t
    ∧ es t' = es t
    ∧ (∀ other, other ≠ this → heap w' !! other = heap w !! other)
    ∧ active_timers w' = active_timers w
    ∧ timer_thread w' = timer_thread w
    ∧ time_calls w' = time_calls w.
Proof.
  intros Hlook. unfold al_timer_set_count.
  rewrite (deref_Some _ _ _ Hlook). simpl.
  eexists _, _. split; [reflexivity|]. simpl.
  rewrite lookup_insert_eq. repeat split; try done.
  intros other Hne. by rewrite lookup_insert_ne.
Qed.

Lemma set_count_changes_only_the_count_witness :
  let t := {| es := _al_event_source_init; started := true;
              speed_usecs := 10000; count := 4; counter := 2500 |} in
  let w := {| heap := {[ 1%positive := t ]}; active_timers := [1%positive];
              timer_thread := true; time_calls := 0 |} in
  ∃ w' t',
    al_timer_set_count 1%positive 77 w = Done w'
    ∧ heap w' !! 1%positive = Some t'
    ∧ count t' = 77 ∧ counter t' = 2500.
Proof.
  intros t w.
  destruct (set_count_changes_only_the_count 1%positive 77 w t)
    as (w' & t' & Hrun & Hheap & Hcount & Hcounter & _); [reflexivity|].
  exists w', t'. repeat split; done.
Defined.

(** *** Create *)


(** *** Speed round trip *)

(** The round trip of C10 fails for a speed whose microsecond value does not
    fit in a [long]: 9223372036854776 ms is read back as a negative speed,
    after Create and after SetSpeed alike. *)
Lemma speed_round_trip_counterexample :
  let s := 9223372036854776 in
  0 < s
  ∧ (∃ w', al_install_timer false (Some 1%positive) s initial_world
             = Done (Some 1%positive, w')
           ∧ al_timer_get_speed 1%positive w' = Done (- 9223372036854775))
  ∧ (∃ w1 w2, al_install_timer false (Some 1%positive) 1 initial_world
                = Done (Some 1%positive, w1)
              ∧ al_timer_set_speed false 1%positive s w1 = Done w2
              ∧ al_timer_get_speed 1%positive w2 = Done (- 9223372036854775))
  ∧ - 9223372036854775 ≠ s.
Proof.
  split; [reflexivity|].
  split; [eexists; split; reflexivity|].
  split; [eexists _, _; split; [reflexivity|]; split; reflexivity|].
  discriminate.
Qed.

(** C10, amended: for every positive speed [s] whose microsecond value
    [s * 1000] fits in a [long], GetSpeed returns exactly [s] right after
    Create(s) and right after SetSpeed(timer, s) on any live timer. *)
Theorem speed_round_trip
    (debugmode : bool) (s : msecs_t) (p : ptr) (w : world) :
  0 < s →
  s * 1000 <= Long.max_signed →
  (∃ w', al_install_timer debugmode (Some p) s w = Done (Some p, w')
         ∧ al_timer_get_speed p w' = Done s)
  ∧ (is_Some (heap w !! p) →
     ∃ w', al_timer_set_speed debugmode p s w = Done w'
           ∧ al_timer_get_speed p w' = Done s).
Proof.
  intros Hpos Hfit.
  assert (Hr : Long.in_range (s * 1000) ∧ Long.in_range s).
  { rewrite !in_range_bounds.
    change Long.max_signed with 9223372036854775807 in Hfit. lia. }
  destruct Hr as [Hr Hs].
  assert (Hback : Long.div (Long.mul s 1000) 1000 = s).
  { rewrite (mul_exact _ _ Hr). unfold Long.div.
    rewrite Z.quot_mul by lia. by apply wrap_id. }
  assert (Hlt : (0 <? s) = true) by by apply Z.ltb_lt.
  split.
  - unfold al_install_timer. rewrite Hlt, !ASSERT_true. simpl.
    eexists. split; [reflexivity|].
    unfold al_timer_get_speed, deref. simpl.
    rewrite lookup_insert_eq. simpl. by rewrite Hback.
  - intros [t Ht]. unfold al_timer_set_speed.
    rewrite Hlt, ASSERT_true, (deref_Some _ _ _ Ht). simpl.
    eexists. split; [reflexivity|].
    unfold al_timer_get_speed, deref. simpl.
    rewrite lookup_insert_eq. simpl. by rewrite Hback.
Qed.

Lemma speed_round_trip_witness :
  (∃ w', al_install_timer true (Some 1%positive) 40 initial_world
           = Done (Some 1%positive, w')
         ∧ al_timer_get_speed 1%positive w' = Done 40).
Proof.
  destruct (speed_round_trip true 40 1%positive initial_world) as [H _].
  - reflexivity.
  - vm_compute. discriminate.
  - exact H.
Defined.

(** ** The per-cycle advance over the registry *)

Lemma advance_timer_runs clock e t k :
  0 < speed_usecs t → Long.in_range (speed_usecs t) →
  ∃ t' k',
    runs_to (λ fuel, advance_timer fuel clock e t k) (t', k')
    ∧ 0 < counter t'
    ∧ speed_usecs t' = speed_usecs t
    ∧ started t' = started t.
Proof.
  intros HP HPr.
  set (t0 := set_counter (Long.sub (counter t) e) t).
  destruct (catch_up_rounds clock t0 k) as [Hrun Hcnt]; try done.
  { apply wrap_in_range. }
  destruct (rounds_spec (counter t0) (speed_usecs t0) HP) as (_ & Hpos & _).
  destruct (Nat.iter _ (fire clock) (t0, k)) as [t' k'] eqn:Hit.
  exists t', k'. split; [exact Hrun|].
  split; [by rewrite <- Hcnt in Hpos|].
  pose proof (iter_fire_speed clock
                (Z.to_nat (rounds (counter t0) (speed_usecs t0))) (t0, k)) as Hs.
  pose proof (iter_fire_started clock
                (Z.to_nat (rounds (counter t0) (speed_usecs t0))) (t0, k)) as Hst.
  rewrite Hit in Hs, Hst. done.
Qed.

Lemma fold_min_acc (c nd : Z) (l : list Z) :
  fold_right Z.min (Z.min c nd) l = Z.min c (fold_right Z.min nd l).
Proof. induction l as [|x l IH]; simpl; [done|]. rewrite IH. lia. Qed.

Lemma periods_ok_cons w p slots :
  periods_ok w (p :: slots) →
  (∃ t, heap w !! p = Some t
        ∧ 0 < speed_usecs t ∧ Long.in_range (speed_usecs t))
  ∧ periods_ok w slots.
Proof.
  intros H. split; [apply H; left|]. intros q Hq. apply H. by right.
Qed.

(** What one pass over the slots does, for any accumulator [nd]. *)
Lemma handle_tick_slots_spec clock e : ∀ slots nd w,
  periods_ok w slots →
  ∃ d w',
    runs_to (λ fuel, handle_tick_slots fuel clock e slots nd w) (d, w')
    ∧ active_timers w' = active_timers w
    ∧ timer_thread w' = timer_thread w
    ∧ (∀ q, q ∉ slots → heap w' !! q = heap w !! q)
    ∧ (∀ q t, heap w !! q = Some t →
         ∃ t', heap w' !! q = Some t'
               ∧ speed_usecs t' = speed_usecs t
               ∧ started t' = started t
               ∧ (q ∈ slots → 0 < counter t'))
    ∧ (∀ q, heap w !! q = None → heap w' !! q = None)
    ∧ d <= nd
    ∧ (0 < nd → 0 < d)
    ∧ (NoDup slots →
         d = fold_right Z.min nd
               (List.filter (λ c, 0 <? c) (countdowns w' slots))).
Proof.
  induction slots as [|p rest IH]; intros nd w Hok.
  - exists nd, w. split; [by exists 0%nat|].
    repeat split; try done; try lia.
    intros q t Hq. exists t. repeat split; try done.
    intros Hin. by apply elem_of_nil in Hin.
  - apply periods_ok_cons in Hok as [(t & Ht & HP & HPr) Hrest].
    destruct (advance_timer_runs clock e t (time_calls w) HP HPr)
      as (t1 & k1 & [n1 Hrun1] & Hpos1 & Hspeed1 & Hstarted1).
    set (w1 := set_time_calls k1 (assign p t1 w)).
    set (nd1 := if (0 <? counter t1) && (counter t1 <? nd)
                then counter t1 else nd).
    assert (Hnd1 : nd1 = Z.min (counter t1) nd).
    { subst nd1. replace (0 <? counter t1) with true
        by (symmetry; by apply Z.ltb_lt).
      simpl. destruct (counter t1 <? nd) eqn:E;
        [apply Z.ltb_lt in E | apply Z.ltb_ge in E]; lia. }
    assert (Hok1 : periods_ok w1 rest).
    { intros q Hq. destruct (decide (q = p)) as [->|Hne].
      - exists t1. simpl. rewrite lookup_insert_eq. by rewrite Hspeed1.
      - destruct (Hrest q Hq) as (tq & Hq1 & Hq2).
        exists tq. simpl. by rewrite lookup_insert_ne. }
    destruct (IH nd1 w1 Hok1)
      as (d & w' & [n2 Hrun2] & Hact & Hthr & Hout & Hlive & Hdead
            & Hle & Hdpos & Hmin).
    exists d, w'. split.
    { exists (n1 `max` n2)%nat. intros m Hm. simpl.
      rewrite (deref_Some _ _ _ Ht). simpl.
      rewrite (Hrun1 m) by lia. simpl. apply Hrun2. lia. }
    split; [by rewrite Hact|]. split; [by rewrite Hthr|].
    split.
    { intros q Hq. apply not_elem_of_cons in Hq as [Hne Hq].
      rewrite (Hout q Hq). simpl. by rewrite lookup_insert_ne. }
    split.
    { intros q tq Hq. destruct (decide (q = p)) as [->|Hne].
      - assert (tq = t) as -> by congruence.
        destruct (Hlive p t1) as (t' & Hl & Hs & Hst & Hc).
        { simpl. by rewrite lookup_insert_eq. }
        exists t'. split; [done|]. split; [congruence|]. split; [congruence|].
        intros _. destruct (decide (p ∈ rest)) as [Hin|Hnin]; [by apply Hc|].
        rewrite (Hout p Hnin) in Hl. simpl in Hl.
        rewrite lookup_insert_eq in Hl. by injection Hl as <-.
      - destruct (Hlive q tq) as (t' & Hl & Hs & Hst & Hc).
        { simpl. by rewrite lookup_insert_ne. }
        exists t'. repeat split; try done.
        intros Hin. apply elem_of_cons in Hin as [?|Hin]; [done|by apply Hc]. }
    split.
    { intros q Hq. apply Hdead. simpl.
      rewrite lookup_insert_ne; [done|]. intros ->. congruence. }
    split; [lia|]. split; [intros; apply Hdpos; lia|].
    intros Hnodup. apply NoDup_cons in Hnodup as [Hnin Hnodup].
    rewrite (Hmin Hnodup). unfold countdowns. simpl.
    rewrite (Hout p Hnin). simpl. rewrite lookup_insert_eq. simpl.
    replace (0 <? counter t1) with true by (symmetry; by apply Z.ltb_lt).
    simpl. by rewrite Hnd1, fold_min_acc.
Qed.


Example two_timers_after_12ms :
  timer_thread_handle_tick 4 (λ _, 0) 12000
    {| heap := {[ 1%positive :=
                    {| es := _al_event_source_init; started := true;
                       speed_usecs := 10000; count := 0; counter := 10000 |};
                  2%positive :=
                    {| es := _al_event_source_init; started := true;
                       speed_usecs := 25000; count := 0; counter := 25000 |} ]};
       active_timers := [1%positive; 2%positive];
       timer_thread := true; time_calls := 0 |}
  = Done (8000,
          {| heap := {[ 1%positive :=
                    {| es := _al_event_source_init; started := true;
                       speed_usecs := 10000; count := 1; counter := 8000 |};
                  2%positive :=
                    {| es := _al_event_source_init; started := true;
                       speed_usecs := 25000; count := 0; counter := 13000 |} ]};
             active_timers := [1%positive; 2%positive];
             timer_thread := true; time_calls := 0 |}).
Proof. vm_compute. reflexivity. Qed.

(** C9: when every active timer has a strictly positive period, one pass of
    the per-cycle advance returns, for any elapsed interval, and afterwards
    every active timer has a strictly positive countdown; the sleep interval
    returned is strictly positive and at most 32768 microseconds. *)
Theorem countdowns_positive_after_cycle
    (clock : nat → Z) (e : usecs_t) (w : world) :
  periods_ok w (active_timers w) →
  ∃ d w',
    runs_to (λ fuel, timer_thread_handle_tick fuel clock e w) (d, w')
    ∧ active_timers w' = active_timers w
    ∧ (∀ p, p ∈ active_timers w' →
         ∃ t', heap w' !! p = Some t' ∧ 0 < counter t')
    ∧ 0 < d <= 32768.
Proof.
  intros Hok.
  destruct (handle_tick_slots_spec clock e (active_timers w)
              default_delay w Hok)
    as (d & w' & Hrun & Hact & _ & _ & Hlive & _ & Hle & Hpos & _).
  exists d, w'. split; [exact Hrun|]. split; [done|]. split.
  - intros p Hp. rewrite Hact in Hp.
    destruct (Hok p Hp) as (t & Ht & _).
    destruct (Hlive p t Ht) as (t' & Ht' & _ & _ & Hc).
    exists t'. split; [done|by apply Hc].
  - change default_delay with 32768 in Hle, Hpos. split; [by apply Hpos|done].
Qed.

Lemma countdowns_positive_after_cycle_witness :
  let t1 := {| es := _al_event_source_init; started := true;
               speed_usecs := 10000; count := 0; counter := 10000 |} in
  let w := {| heap := {[ 1%positive := t1 ]};
              active_timers := [1%positive];
              timer_thread := true; time_calls := 0 |} in
  ∃ d w',
    runs_to (λ fuel, timer_thread_handle_tick fuel (λ _, 0) 35000 w) (d, w')
    ∧ 0 < d <= 32768.
Proof.
  intros t1 w.
  destruct (countdowns_positive_after_cycle (λ _, 0) 35000 w)
    as (d & w' & Hrun & _ & _ & Hd).
  - intros p Hp. apply list_elem_of_singleton in Hp as ->.
    exists t1. split; [reflexivity|]. split; [reflexivity|].
    vm_compute. split; discriminate.
  - exists d, w'. split; done.
Defined.

(** ** The registry invariant *)

Lemma occurrences_not_in p l : p ∉ l → occurrences p l = 0%nat.
Proof.
  unfold occurrences. induction l as [|q l IH]; intros Hnin; [done|].
  apply not_elem_of_cons in Hnin as [Hne Hnin].
  rewrite filter_cons_False by congruence. by apply IH.
Qed.

Lemma occurrences_NoDup_in p l : NoDup l → p ∈ l → occurrences p l = 1%nat.
Proof.
  unfold occurrences. induction 1 as [|q l Hq Hnd IH]; intros Hin.
  - by apply elem_of_nil in Hin.
  - apply elem_of_cons in Hin as [->|Hin].
    + rewrite filter_cons_True by done. simpl. f_equal.
      by apply (occurrences_not_in q l).
    + rewrite filter_cons_False; [by apply IH|]. intros ->. done.
Qed.

Lemma find_and_delete_elem_of l p q :
  NoDup l →
  q ∈ _al_vector_find_and_delete l p ↔ q ∈ l ∧ q ≠ p.
Proof.
  induction 1 as [|x l Hx Hnd IH]; simpl.
  - split; [intros H; by apply elem_of_nil in H|intros [H _]; done].
  - destruct (decide (x = p)) as [->|Hne].
    + rewrite elem_of_cons. split.
      * intros Hq. split; [by right|]. intros ->. done.
      * intros [[->|Hq] Hneq]; done.
    + rewrite !elem_of_cons, IH. split.
      * intros [->|[Hq Hneq]]; [split; [by left|done]|split; [by right|done]].
      * intros [[->|Hq] Hneq]; [by left|by right].
Qed.

Lemma find_and_delete_NoDup l p :
  NoDup l → NoDup (_al_vector_find_and_delete l p).
Proof.
  induction 1 as [|x l Hx Hnd IH]; simpl; [constructor|].
  destruct (decide (x = p)); [done|].
  constructor; [|done].
  rewrite find_and_delete_elem_of by done. intros [? _]. done.
Qed.

Lemma catch_up_started fuel clock : ∀ t k t' k',
  catch_up fuel clock t k = Done (t', k') → started t' = started t.
Proof.
  induction fuel as [|fuel IH]; intros t k t' k'; simpl.
  - destruct (counter t <=? 0); [done|]. by intros [= <- <-].
  - destruct (counter t <=? 0); [|by intros [= <- <-]].
    destruct (timer_handle_tick _ _ _) as [t2 k2] eqn:Ht.
    intros H. apply IH in H. rewrite H.
    change t2 with (t2, k2).1. rewrite <- Ht.
    by rewrite timer_handle_tick_started.
Qed.

(** One cycle of the driver thread changes neither the registry, nor the
    thread, nor which objects are live, nor any running flag. *)
Lemma handle_tick_slots_frame fuel clock e : ∀ slots nd w d w',
  handle_tick_slots fuel clock e slots nd w = Done (d, w') →
  active_timers w' = active_timers w
  ∧ timer_thread w' = timer_thread w
  ∧ ∀ q, started <$> heap w' !! q = started <$> heap w !! q.
Proof.
  induction slots as [|p rest IH]; intros nd w d w'; simpl.
  - by intros [= <- <-].
  - unfold deref. destruct (heap w !! p) as [t|] eqn:Ht; [simpl|done].
    destruct (advance_timer fuel clock e t (time_calls w))
      as [[t1 k1]|] eqn:Hadv; [simpl|done].
    intros H. apply IH in H as (Hact & Hthr & Hst).
    split; [done|]. split; [done|].
    intros q. rewrite Hst. simpl.
    destruct (decide (q = p)) as [->|Hne].
    + rewrite lookup_insert_eq, Ht. simpl. f_equal.
      unfold advance_timer in Hadv. by apply catch_up_started in Hadv.
    + by rewrite lookup_insert_ne.
Qed.

Lemma registry_inv_step w w' : registry_inv w → step w w' → registry_inv w'.
Proof.
  intros [Hnd Hreg] Hstep.
  assert (Hstop : ∀ this w1, al_stop_timer this w = Done w1 →
            registry_inv w1
            ∧ (this ∈ active_timers w1 → False)
            ∧ ∀ q, q ≠ this → heap w1 !! q = heap w !! q).
  { intros this w1. unfold al_stop_timer, deref.
    destruct (heap w !! this) as [t|] eqn:Ht; [simpl|done].
    destruct (started t) eqn:Hs; simpl.
    - assert (Hinv : registry_inv
                (assign this (set_started false t)
                   (set_active_timers
                      (_al_vector_find_and_delete (active_timers w) this) w))
              ∧ (this ∈ _al_vector_find_and_delete (active_timers w) this
                   → False)).
      { split; [split|]; simpl.
        - by apply find_and_delete_NoDup.
        - intros q. rewrite find_and_delete_elem_of by done.
          destruct (decide (q = this)) as [->|Hne].
          + rewrite lookup_insert_eq. simpl. split; [intros [_ ?]; done|done].
          + rewrite lookup_insert_ne by done. rewrite Hreg. tauto.
        - rewrite find_and_delete_elem_of by done. intros [_ ?]. done. }
      destruct Hinv as [[Hnd1 Hreg1] Hout]. simpl in Hnd1, Hreg1.
      destruct (Nat.eqb _ _) eqn:Hsz; intros [= <-]; simpl.
      + apply Nat.eqb_eq in Hsz. apply nil_length_inv in Hsz.
        rewrite Hsz in Hreg1, Hout.
        split; [split; [constructor|done]|]. split.
        * intros H. by apply elem_of_nil in H.
        * intros q Hne. by rewrite lookup_insert_ne.
      + split; [done|]. split; [done|].
        intros q Hne. by rewrite lookup_insert_ne.
    - intros [= <-]. split; [done|]. split; [|done].
      rewrite Hreg, Ht. simpl. rewrite Hs. discriminate. }
  inversion Hstep as
    [dbg malloc s w0 r w0' Hfresh Hrun | this w0 w0' Hrun | this w0 w0' Hrun
    | this w0 w0' Hrun | dbg this s w0 w0' Hrun | this v w0 w0' Hrun
    | fuel clock e w0 d w0' Hrun | this t es' w0 Ht ]; subst.
  - (* install *)
    unfold al_install_timer in Hrun.
    destruct (ASSERT dbg (0 <? s)); [simpl in Hrun|done].
    destruct (ASSERT dbg (bool_decide (is_Some malloc))); [simpl in Hrun|done].
    destruct malloc as [p|]; injection Hrun as <- <-; [|done].
    split; [done|]. simpl. intros q. rewrite Hreg.
    destruct (decide (q = p)) as [->|Hne].
    + rewrite lookup_insert_eq, (Hfresh p eq_refl). done.
    + by rewrite lookup_insert_ne.
  - (* uninstall *)
    unfold al_uninstall_timer in Hrun.
    destruct (al_stop_timer this w) as [w1|] eqn:Hs; [simpl in Hrun|done].
    injection Hrun as <-.
    destruct (Hstop this w1 Hs) as ([Hnd1 Hreg1] & Hout & _).
    split; [done|]. simpl. intros q. rewrite Hreg1.
    destruct (decide (q = this)) as [->|Hne].
    + rewrite lookup_delete_eq. simpl. split; [|done].
      intros H. exfalso. by apply Hout, Hreg1.
    + by rewrite lookup_delete_ne.
  - (* start *)
    unfold al_start_timer, deref in Hrun.
    destruct (heap w !! this) as [t|] eqn:Ht; [simpl in Hrun|done].
    destruct (started t) eqn:Hs; [by injection Hrun as <-|].
    assert (Hnin : this ∉ active_timers w).
    { rewrite Hreg, Ht. simpl. rewrite Hs. discriminate. }
    assert (registry_inv
              (set_active_timers
                 (_al_vector_alloc_back (active_timers w) this)
                 (assign this
                    (set_counter (speed_usecs t) (set_started true t)) w)))
      as [Hnd1 Hreg1].
    { split; simpl; unfold _al_vector_alloc_back.
      - apply NoDup_app. split; [done|]. split; [|apply NoDup_singleton].
        intros q Hq Hq'. apply list_elem_of_singleton in Hq' as ->. done.
      - intros q. rewrite elem_of_app, list_elem_of_singleton, Hreg.
        destruct (decide (q = this)) as [->|Hne].
        + rewrite lookup_insert_eq. simpl. split; [done|by right].
        + rewrite lookup_insert_ne by done. split; [intros [?|?]; done|by left]. }
    destruct (Nat.eqb _ _); injection Hrun as <-; split; done.
  - (* stop *)
    by destruct (Hstop this w' Hrun) as [? _].
  - (* set_speed *)
    unfold al_timer_set_speed, deref in Hrun.
    destruct (ASSERT dbg (0 <? s)); [simpl in Hrun|done].
    destruct (heap w !! this) as [t|] eqn:Ht; [simpl in Hrun|done].
    injection Hrun as <-. split; [done|]. simpl. intros q. rewrite Hreg.
    destruct (decide (q = this)) as [->|Hne].
    + rewrite lookup_insert_eq, Ht. simpl.
      destruct (started t) eqn:E; simpl; by rewrite ?E.
    + by rewrite lookup_insert_ne.
  - (* set_count *)
    unfold al_timer_set_count, deref in Hrun.
    destruct (heap w !! this) as [t|] eqn:Ht; [simpl in Hrun|done].
    injection Hrun as <-. split; [done|]. simpl. intros q. rewrite Hreg.
    destruct (decide (q = this)) as [->|Hne].
    + by rewrite lookup_insert_eq, Ht.
    + by rewrite lookup_insert_ne.
  - (* one cycle of the driver thread *)
    apply handle_tick_slots_frame in Hrun as (Hact & _ & Hst).
    split; [by rewrite Hact|]. intros q. by rewrite Hact, Hst.
  - (* event source *)
    split; [done|]. simpl. intros q. rewrite Hreg.
    destruct (decide (q = this)) as [->|Hne].
    + by rewrite lookup_insert_eq, Ht.
    + by rewrite lookup_insert_ne.
Qed.

Lemma registry_inv_reachable w : reachable w → registry_inv w.
Proof.
  induction 1 as [|w w' _ IH Hstep].
  - split; [constructor|]. intros p. simpl. rewrite lookup_empty. simpl.
    split; [intros H; by apply elem_of_nil in H|done].
  - by apply (registry_inv_step w).
Qed.

(** C4: in every world reached from the initial one by Create, Destroy,
    Start, Stop, SetSpeed, SetCount, cycles of the driver thread and changes
    to event sources, a timer object has its running flag set if and only if
    its pointer occurs exactly once in the registry, and a timer that is not
    running does not occur there at all; the registry holds live objects
    only, and a cycle of the driver thread leaves the registry as it is. *)
Theorem running_iff_registered_once (w : world) :
  reachable w →
  (∀ p t, heap w !! p = Some t →
     (started t = true ↔ occurrences p (active_timers w) = 1%nat)
     ∧ (started t = false ↔ occurrences p (active_timers w) = 0%nat))
  ∧ (∀ p, p ∈ active_timers w → is_Some (heap w !! p))
  ∧ (∀ fuel clock elapsed next w',
       timer_thread_handle_tick fuel clock elapsed w = Done (next, w') →
       active_timers w' = active_timers w).
Proof.
  intros Hreach. destruct (registry_inv_reachable w Hreach) as [Hnd Hreg].
  split; [|split].
  - intros p t Ht.
    assert (Hin : p ∈ active_timers w ↔ started t = true).
    { rewrite Hreg, Ht. simpl. split; [by intros [= ->]|by intros ->]. }
    destruct (started t) eqn:Hs.
    + assert (occurrences p (active_timers w) = 1%nat) as ->
        by (apply occurrences_NoDup_in; [done|by apply Hin]).
      done.
    + assert (occurrences p (active_timers w) = 0%nat) as ->.
      { apply occurrences_not_in. intros H. apply Hin in H. done. }
      done.
  - intros p Hp. apply Hreg in Hp. by destruct (heap w !! p).
  - intros fuel clock e next w' Hrun.
    by apply handle_tick_slots_frame in Hrun as [? _].
Qed.

Lemma running_iff_registered_once_witness :
  ∃ w t,
    reachable w
    ∧ heap w !! 1%positive = Some t
    ∧ started t = true
    ∧ occurrences 1%positive (active_timers w) = 1%nat.
Proof.
  set (w1 := assign 1%positive
               {| es := _al_event_source_init; started := false;
                  speed_usecs := 10000; count := 0; counter := 0 |}
               initial_world).
  set (t2 := {| es := _al_event_source_init; started := true;
                speed_usecs := 10000; count := 0; counter := 10000 |}).
  set (w2 := set_timer_thread true
               (set_active_timers [1%positive] (assign 1%positive t2 w1))).
  assert (Hreach : reachable w2).
  { apply (reachable_step w1).
    - apply (reachable_step initial_world); [constructor|].
      apply (step_install true (Some 1%positive) 10 initial_world
               (Some 1%positive) w1); [|reflexivity].
      intros p _. apply lookup_empty.
    - apply (step_start 1%positive). reflexivity. }
  destruct (running_iff_registered_once w2 Hreach) as [Hiff _].
  destruct (Hiff 1%positive t2 eq_refl) as [[Hocc _] _].
  exists w2, t2. split; [exact Hreach|]. split; [reflexivity|].
  split; [reflexivity|]. apply Hocc. reflexivity.
Defined.

(** * Further properties of the timer file *)

(** ** Stop, Start and Destroy *)

Lemma filter_ne_not_in (l : list ptr) p : p ∉ l → filter (λ q, q ≠ p) l = l.
Proof.
  induction l as [|x l IH]; intros Hnin; [done|].
  apply not_elem_of_cons in Hnin as [Hne Hnin].
  rewrite filter_cons_True by congruence. f_equal. by apply IH.
Qed.

Lemma find_and_delete_filter l p :
  NoDup l → _al_vector_find_and_delete l p = filter (λ q, q ≠ p) l.
Proof.
  induction 1 as [|x l Hx Hnd IH]; simpl; [done|].
  destruct (decide (x = p)) as [->|Hne].
  - rewrite filter_cons_False by (intros H; by apply H).
    symmetry. by apply filter_ne_not_in.
  - rewrite filter_cons_True by done. by rewrite IH.
Qed.

Lemma find_and_delete_not_in l p :
  p ∉ l → _al_vector_find_and_delete l p = l.
Proof.
  induction l as [|x l IH]; intros Hnin; simpl; [done|].
  apply not_elem_of_cons in Hnin as [Hne Hnin].
  destruct (decide (x = p)); [congruence|]. f_equal. by apply IH.
Qed.

Lemma find_and_delete_app_last l p :
  p ∉ l → _al_vector_find_and_delete (l ++ [p]) p = l.
Proof.
  induction l as [|x l IH]; intros Hnin; simpl.
  - by destruct (decide (p = p)).
  - apply not_elem_of_cons in Hnin as [Hne Hnin].
    destruct (decide (x = p)); [congruence|]. f_equal. by apply IH.
Qed.

Lemma thread_inv_step w w' : thread_inv w → step w w' → thread_inv w'.
Proof.
  unfold thread_inv. intros Hinv Hstep.
  assert (Hstop : ∀ this w1, al_stop_timer this w = Done w1 →
            timer_thread w1 = true ↔ active_timers w1 ≠ []).
  { intros this w1. unfold al_stop_timer, deref.
    destruct (heap w !! this) as [t|]; [simpl|done].
    destruct (started t); simpl; [|by intros [= <-]].
    destruct (_al_vector_find_and_delete (active_timers w) this)
      as [|x l'] eqn:Hdel; simpl; intros [= <-]; simpl.
    - split; [discriminate|done].
    - rewrite Hinv. split; [done|]. intros _ Hnil.
      rewrite Hnil in Hdel. discriminate. }
  inversion Hstep as
    [dbg malloc s w0 r w0' Hfresh Hrun | this w0 w0' Hrun | this w0 w0' Hrun
    | this w0 w0' Hrun | dbg this s w0 w0' Hrun | this v w0 w0' Hrun
    | fuel clock e w0 d w0' Hrun | this t es' w0 Ht ]; subst.
  - unfold al_install_timer in Hrun.
    destruct (ASSERT dbg (0 <? s)); [simpl in Hrun|done].
    destruct (ASSERT dbg (bool_decide (is_Some malloc))); [simpl in Hrun|done].
    by destruct malloc; injection Hrun as <- <-.
  - unfold al_uninstall_timer in Hrun.
    destruct (al_stop_timer this w) as [w1|] eqn:Hs; [simpl in Hrun|done].
    injection Hrun as <-. simpl. by apply (Hstop this).
  - unfold al_start_timer, deref in Hrun.
    destruct (heap w !! this) as [t|]; [simpl in Hrun|done].
    destruct (started t); [by injection Hrun as <-|].
    unfold _al_vector_alloc_back, _al_vector_size in Hrun. simpl in Hrun.
    destruct (Nat.eqb_spec (length (active_timers w ++ [this])) 1) as [E|E];
      injection Hrun as <-; simpl.
    + split; [|done]. intros _. by destruct (active_timers w).
    + rewrite Hinv. rewrite length_app in E. simpl in E.
      split; intros _; destruct (active_timers w); simpl in *; done || lia.
  - by apply (Hstop this).
  - unfold al_timer_set_speed, deref in Hrun.
    destruct (ASSERT dbg (0 <? s)); [simpl in Hrun|done].
    destruct (heap w !! this); [simpl in Hrun|done]. by injection Hrun as <-.
  - unfold al_timer_set_count, deref in Hrun.
    destruct (heap w !! this); [simpl in Hrun|done]. by injection Hrun as <-.
  - apply handle_tick_slots_frame in Hrun as (-> & -> & _). done.
  - done.
Qed.

Lemma thread_inv_reachable w : reachable w → thread_inv w.
Proof.
  induction 1 as [|w w' _ IH Hstep].
  - unfold thread_inv. simpl. split; [discriminate|done].
  - by apply (thread_inv_step w).
Qed.

(** X3: the driver thread exists exactly while at least one timer is
    started: in every reachable world the thread flag is set if and only if
    the registry is not empty. *)
Theorem thread_alive_iff_registry_occupied (w : world) :
  reachable w → (timer_thread w = true ↔ active_timers w ≠ []).
Proof. apply thread_inv_reachable. Qed.

Lemma one_timer_created_reachable : reachable one_timer_created.
Proof.
  apply (reachable_step initial_world); [constructor|].
  apply (step_install true (Some 1%positive) 10 initial_world
           (Some 1%positive)); [|reflexivity].
  intros p _. apply lookup_empty.
Qed.

Lemma one_timer_started_reachable : reachable one_timer_started.
Proof.
  apply (reachable_step one_timer_created);
    [apply one_timer_created_reachable|].
  apply (step_start 1%positive). vm_compute. reflexivity.
Qed.

Lemma thread_alive_iff_registry_occupied_witness :
  timer_thread one_timer_started = true
  ∧ active_timers one_timer_started ≠ [].
Proof.
  split; [reflexivity|].
  apply (thread_alive_iff_registry_occupied one_timer_started
           one_timer_started_reachable).
  reflexivity.
Defined.

Lemma al_stop_timer_spec
    (this : ptr) (w : world) (t : ALLEGRO_TIMER) :
  reachable w →
  heap w !! this = Some t →
  (started t = false → al_stop_timer this w = Done w)
  ∧ (started t = true →
     ∃ w' t',
       al_stop_timer this w = Done w'
       ∧ heap w' = <[this := t']> (heap w)
       ∧ started t' = false
       ∧ counter t' = counter t
       ∧ count t' = count t
       ∧ speed_usecs t' = speed_usecs t
       ∧ es t' = es t
       ∧ active_timers w' = filter (λ q, q ≠ this) (active_timers w)
       ∧ (this ∉ active_timers w')
       ∧ al_stop_timer this w' = Done w').
Proof.
  intros Hreach Hlook.
  destruct (registry_inv_reachable w Hreach) as [Hnd _].
  unfold al_stop_timer at 1 2. rewrite (deref_Some _ _ _ Hlook). simpl.
  split; intros Hs; rewrite Hs; simpl; [done|].
  set (t' := set_started false t).
  assert (Hagain : ∀ w', heap w' = <[this := t']> (heap w) →
            al_stop_timer this w' = Done w').
  { intros w' Hh. unfold al_stop_timer, deref.
    by rewrite Hh, lookup_insert_eq. }
  assert (Hout : ¬ (this ∈ filter (λ q, q ≠ this) (active_timers w))).
  { rewrite list_elem_of_filter. intros [? _]. done. }
  rewrite (find_and_delete_filter _ _ Hnd).
  unfold _al_vector_size.
  destruct (filter (λ q, q ≠ this) (active_timers w)) as [|x l] eqn:Hf;
    simpl; eexists _, t'; (split; [reflexivity|]); simpl;
    repeat split; try done; by apply Hagain.
Qed.

(** X1: Stop on a timer that is not running changes nothing.  On a running
    timer of a reachable world it clears the running flag, keeps countdown,
    tick count, period and event source, and takes the timer out of the
    registry, leaving the other entries in their order; a second Stop
    changes nothing more. *)
Theorem stop_removes_timer_and_is_idempotent
    (this : ptr) (w : world) (t : ALLEGRO_TIMER) :
  reachable w →
  heap w !! this = Some t →
  (started t = false → al_stop_timer this w = Done w)
  ∧ (started t = true →
     ∃ w' t',
       al_stop_timer this w = Done w'
       ∧ heap w' = <[this := t']> (heap w)
       ∧ started t' = false
       ∧ counter t' = counter t
       ∧ count t' = count t
       ∧ speed_usecs t' = speed_usecs t
       ∧ es t' = es t
       ∧ active_timers w' = filter (λ q, q ≠ this) (active_timers w)
       ∧ (this ∉ active_timers w')
       ∧ al_stop_timer this w' = Done w').
Proof. apply al_stop_timer_spec. Qed.

Lemma stop_removes_timer_and_is_idempotent_witness :
  ∃ w' t',
    al_stop_timer 1%positive one_timer_started = Done w'
    ∧ heap w' !! 1%positive = Some t'
    ∧ started t' = false ∧ counter t' = 10000
    ∧ active_timers w' = []
    ∧ al_stop_timer 1%positive w' = Done w'.
Proof.
  destruct (stop_removes_timer_and_is_idempotent 1%positive one_timer_started
              {| es := _al_event_source_init; started := true;
                 speed_usecs := 10000; count := 0; counter := 10000 |}
              one_timer_started_reachable eq_refl) as [_ Hrun].
  destruct (Hrun eq_refl)
    as (w' & t' & Hstop & Hheap & Hs & Hc & _ & _ & _ & Hact & _ & Hidem).
  exists w', t'. rewrite Hheap, lookup_insert_eq. repeat split; done.
Defined.

Lemma registry_inv_not_started w this t :
  registry_inv w → heap w !! this = Some t → started t = false →
  this ∉ active_timers w.
Proof.
  intros [_ Hreg] Ht Hs. rewrite Hreg, Ht. simpl. rewrite Hs. discriminate.
Qed.

(** X2: Start followed by Stop on a timer that was not running restores the
    registry and the driver thread; all that remains of the pair is the
    countdown, loaded with the period. *)
Theorem start_then_stop_restores_registry
    (this : ptr) (w : world) (t : ALLEGRO_TIMER) :
  reachable w →
  heap w !! this = Some t →
  started t = false →
  ∃ w1 w2 t2,
    al_start_timer this w = Done w1
    ∧ al_stop_timer this w1 = Done w2
    ∧ heap w2 = <[this := t2]> (heap w)
    ∧ started t2 = false
    ∧ counter t2 = speed_usecs t
    ∧ count t2 = count t
    ∧ speed_usecs t2 = speed_usecs t
    ∧ es t2 = es t
    ∧ active_timers w2 = active_timers w
    ∧ timer_thread w2 = timer_thread w
    ∧ time_calls w2 = time_calls w.
Proof.
  intros Hreach Hlook Hs.
  pose proof (registry_inv_not_started w this t
                (registry_inv_reachable w Hreach) Hlook Hs) as Hnin.
  pose proof (thread_inv_reachable w Hreach) as Hthr.
  unfold thread_inv in Hthr.
  unfold al_start_timer. rewrite (deref_Some _ _ _ Hlook). simpl. rewrite Hs.
  unfold _al_vector_alloc_back, _al_vector_size. simpl.
  set (t1 := set_counter (speed_usecs t) (set_started true t)).
  assert (Hstop : ∀ w1,
            heap w1 = <[this := t1]> (heap w) →
            active_timers w1 = active_timers w ++ [this] →
            ∃ w2, al_stop_timer this w1 = Done w2
                  ∧ heap w2 = <[this := set_started false t1]> (heap w)
                  ∧ active_timers w2 = active_timers w
                  ∧ timer_thread w2
                    = (if active_timers w is [] then false
                       else timer_thread w1)
                  ∧ time_calls w2 = time_calls w1).
  { intros w1 Hh Hact. unfold al_stop_timer, deref.
    rewrite Hh, lookup_insert_eq. simpl.
    rewrite Hact, (find_and_delete_app_last _ _ Hnin).
    unfold _al_vector_size.
    destruct (active_timers w) eqn:Hl; simpl; eexists;
      (split; [reflexivity|]); simpl; by rewrite Hh, insert_insert_eq. }
  destruct (Nat.eqb_spec (length (active_timers w ++ [this])) 1) as [E|E].
  - destruct (Hstop (set_timer_thread true
                (set_active_timers (active_timers w ++ [this])
                   (assign this t1 w))) eq_refl eq_refl)
      as (w2 & Hrun & Hh & Hact & Hth & Hk).
    eexists _, w2, _. split; [reflexivity|]. split; [exact Hrun|].
    split; [exact Hh|]. simpl. repeat split; try done.
    rewrite Hth. rewrite length_app in E. simpl in E.
    destruct (active_timers w) eqn:Hl; simpl in E; [|lia].
    symmetry. destruct (timer_thread w); [|done].
    exfalso. by apply Hthr.
  - destruct (Hstop (set_active_timers (active_timers w ++ [this])
                       (assign this t1 w)) eq_refl eq_refl)
      as (w2 & Hrun & Hh & Hact & Hth & Hk).
    eexists _, w2, _. split; [reflexivity|]. split; [exact Hrun|].
    split; [exact Hh|]. simpl. repeat split; try done.
    rewrite Hth. rewrite length_app in E. simpl in E.
    destruct (active_timers w) eqn:Hl; simpl in E; [lia|done].
Qed.

Lemma start_then_stop_restores_registry_witness :
  ∃ w1 w2 t2,
    al_start_timer 1%positive one_timer_created = Done w1
    ∧ al_stop_timer 1%positive w1 = Done w2
    ∧ heap w2 !! 1%positive = Some t2
    ∧ counter t2 = 10000
    ∧ active_timers w2 = []
    ∧ timer_thread w2 = false.
Proof.
  destruct (start_then_stop_restores_registry 1%positive one_timer_created
              {| es := _al_event_source_init; started := false;
                 speed_usecs := 10000; count := 0; counter := 0 |}
              one_timer_created_reachable eq_refl eq_refl)
    as (w1 & w2 & t2 & H1 & H2 & Hh & _ & Hc & _ & _ & _ & Hact & Hth & _).
  exists w1, w2, t2. rewrite Hh, lookup_insert_eq. repeat split; done.
Defined.

(** X4: Destroy on a live timer of a reachable world always succeeds: a
    running timer is stopped first, the object leaves the heap and the
    registry, every other object and the order of the other registry
    entries are kept, and the driver thread goes exactly when the registry
    becomes empty. *)
Theorem uninstall_stops_and_frees
    (this : ptr) (w : world) (t : ALLEGRO_TIMER) :
  reachable w →
  heap w !! this = Some t →
  ∃ w',
    al_uninstall_timer this w = Done w'
    ∧ heap w' = delete this (heap w)
    ∧ active_timers w' = filter (λ q, q ≠ this) (active_timers w)
    ∧ (timer_thread w' = true ↔ active_timers w' ≠ [])
    ∧ (∀ p, p ∈ active_timers w' → is_Some (heap w' !! p)).
Proof.
  intros Hreach Hlook.
  destruct (al_stop_timer_spec this w t Hreach Hlook) as [Hoff Hon].
  assert (∃ w', al_uninstall_timer this w = Done w'
                ∧ heap w' = delete this (heap w)
                ∧ active_timers w'
                  = filter (λ q, q ≠ this) (active_timers w))
    as (w' & Hrun & Hh & Hact).
  { unfold al_uninstall_timer. destruct (started t) eqn:Hs.
    - destruct (Hon eq_refl) as (w1 & t' & -> & Hh & _ & _ & _ & _ & _ & Hact & _).
      simpl. eexists. split; [reflexivity|]. simpl.
      by rewrite Hh, delete_insert_eq.
    - rewrite (Hoff eq_refl). simpl. eexists. split; [reflexivity|]. simpl.
      split; [done|]. symmetry. apply filter_ne_not_in.
      by apply (registry_inv_not_started w this t
                  (registry_inv_reachable w Hreach)). }
  assert (Hreach' : reachable w').
  { apply (reachable_step w); [done|]. by apply (step_uninstall this). }
  exists w'. split; [done|]. split; [done|]. split; [done|].
  split; [by apply thread_inv_reachable|].
  destruct (registry_inv_reachable w' Hreach') as [_ Hreg].
  intros p Hp. apply Hreg in Hp. by destruct (heap w' !! p).
Qed.

Lemma uninstall_stops_and_frees_witness :
  ∃ w',
    al_uninstall_timer 1%positive one_timer_started = Done w'
    ∧ heap w' !! 1%positive = None
    ∧ active_timers w' = []
    ∧ timer_thread w' = false.
Proof.
  destruct (uninstall_stops_and_frees 1%positive one_timer_started
              {| es := _al_event_source_init; started := true;
                 speed_usecs := 10000; count := 0; counter := 10000 |}
              one_timer_started_reachable eq_refl)
    as (w' & Hrun & Hh & Hact & Hthr & _).
  exists w'. split; [exact Hrun|].
  split; [rewrite Hh; apply lookup_delete_eq|].
  assert (Hnil : active_timers w' = []) by (rewrite Hact; reflexivity).
  split; [exact Hnil|].
  destruct (timer_thread w'); [|reflexivity].
  exfalso. by apply Hthr.
Defined.

(** ** What a cycle of the driver thread leaves alone *)

Lemma handle_tick_slots_untouched fuel clock e : ∀ slots nd w d w',
  handle_tick_slots fuel clock e slots nd w = Done (d, w') →
  ∀ q, q ∉ slots → heap w' !! q = heap w !! q.
Proof.
  induction slots as [|p rest IH]; intros nd w d w'; simpl.
  - by intros [= <- <-].
  - unfold deref. destruct (heap w !! p) as [t|] eqn:Ht; [simpl|done].
    destruct (advance_timer fuel clock e t (time_calls w))
      as [[t1 k1]|] eqn:Hadv; [simpl|done].
    intros H q Hq. apply not_elem_of_cons in Hq as [Hne Hq].
    rewrite (IH _ _ _ _ H q Hq). simpl. by rewrite lookup_insert_ne.
Qed.

(** X5: a cycle of the driver thread never touches a timer that is not
    running.  In a reachable world the object of such a timer (tick count,
    countdown, period, event source) is the same after any cycle: the count
    is frozen after Stop, and does not move before Start. *)
Theorem cycle_leaves_stopped_timers_alone
    (fuel : nat) (clock : nat → Z) (e : usecs_t) (w w' : world) (next : usecs_t)
    (p : ptr) (t : ALLEGRO_TIMER) :
  reachable w →
  heap w !! p = Some t →
  started t = false →
  timer_thread_handle_tick fuel clock e w = Done (next, w') →
  heap w' !! p = Some t.
Proof.
  intros Hreach Hlook Hs Hrun.
  rewrite <- Hlook. apply (handle_tick_slots_untouched _ _ _ _ _ _ _ _ Hrun).
  by apply (registry_inv_not_started w p t (registry_inv_reachable w Hreach)).
Qed.

Lemma cycle_leaves_stopped_timers_alone_witness :
  let idle := {| es := _al_event_source_init; started := false;
                 speed_usecs := 25000; count := 5; counter := 0 |} in
  ∃ w next w',
    reachable w
    ∧ timer_thread_handle_tick 3 (λ _, 0) 12000 w = Done (next, w')
    ∧ heap w' !! 2%positive = Some idle.
Proof.
  intros idle.
  set (w0 := assign 2%positive
               {| es := _al_event_source_init; started := false;
                  speed_usecs := 25000; count := 0; counter := 0 |}
               one_timer_started).
  set (w := assign 2%positive idle w0).
  assert (Hreach : reachable w).
  { apply (reachable_step w0).
    - apply (reachable_step one_timer_started);
        [apply one_timer_started_reachable|].
      apply (step_install true (Some 2%positive) 25 one_timer_started
               (Some 2%positive)); [|reflexivity].
      intros p [= <-]. reflexivity.
    - apply (step_set_count 2%positive 5). reflexivity. }
  destruct (timer_thread_handle_tick 3 (λ _, 0) 12000 w)
    as [[next w']|err] eqn:Hrun; [|by vm_compute in Hrun].
  exists w, next, w'. split; [exact Hreach|]. split; [exact Hrun|].
  apply (cycle_leaves_stopped_timers_alone 3 (λ _, 0) 12000 w w' next
           2%positive idle Hreach); [reflexivity | reflexivity | exact Hrun].
Defined.

(** ** A period of zero *)

Lemma catch_up_zero_period clock : ∀ fuel t k,
  speed_usecs t = 0 → Long.in_range (counter t) → counter t <= 0 →
  catch_up fuel clock t k = Err OutOfFuel.
Proof.
  induction fuel as [|fuel IH]; intros t k HP Hr Hc.
  - simpl. apply Z.leb_le in Hc. by rewrite Hc.
  - rewrite catch_up_step by done.
    assert (Hsame : counter (fire clock (t, k)).1 = counter t).
    { rewrite fire_counter. simpl. unfold Long.add.
      rewrite HP, Z.add_0_r. by apply wrap_id. }
    apply IH.
    + by rewrite fire_speed.
    + by rewrite Hsame.
    + by rewrite Hsame.
Qed.

(** ** The countdown stays within one period *)

(** X7: the countdown never exceeds the period.  When the countdown of a
    timer is at most its period [P > 0] and the elapsed time is not negative
    (and their difference is a [long]), the advance returns with a countdown
    in [(0, P]]: the next tick is never more than one period away. *)
Theorem advance_keeps_countdown_within_period
    (clock : nat → Z) (t : ALLEGRO_TIMER) (e : usecs_t) (k : nat) :
  0 < speed_usecs t →
  Long.in_range (speed_usecs t) →
  counter t <= speed_usecs t →
  0 <= e →
  Long.in_range (counter t - e) →
  ∃ t' k',
    runs_to (λ fuel, advance_timer fuel clock e t k) (t', k')
    ∧ 0 < counter t' <= speed_usecs t'
    ∧ speed_usecs t' = speed_usecs t.
Proof.
  intros HP HPr Hle He Hd.
  set (t0 := set_counter (Long.sub (counter t) e) t).
  assert (Hc0 : counter t0 = counter t - e) by (simpl; by apply sub_exact).
  destruct (catch_up_rounds clock t0 k) as [Hrun Hcnt]; try done.
  { rewrite Hc0. done. }
  destruct (rounds_spec (counter t0) (speed_usecs t0) HP)
    as (Hn0 & Hpos & Hlast).
  pose proof (iter_fire_speed clock
                (Z.to_nat (rounds (counter t0) (speed_usecs t0))) (t0, k)) as Hs.
  destruct (Nat.iter _ (fire clock) (t0, k)) as [t' k'].
  exists t', k'. split; [exact Hrun|].
  change (speed_usecs t' = speed_usecs t) in Hs.
  change (counter t' = counter t0
                       + rounds (counter t0) (speed_usecs t0) * speed_usecs t0)
    in Hcnt.
  change (speed_usecs t0) with (speed_usecs t) in *.
  split; [|done]. rewrite Hs, Hcnt. split; [done|].
  destruct (decide (0 < rounds (counter t0) (speed_usecs t))) as [Hr|Hr].
  - specialize (Hlast Hr). lia.
  - assert (rounds (counter t0) (speed_usecs t) = 0) as -> by lia. lia.
Qed.

Lemma advance_keeps_countdown_within_period_witness :
  let t := {| es := _al_event_source_init; started := true;
              speed_usecs := 10000; count := 0; counter := 4000 |} in
  ∃ t' k',
    runs_to (λ fuel, advance_timer fuel (λ _, 0) 27000 t 0) (t', k')
    ∧ 0 < counter t' <= 10000.
Proof.
  intros t.
  destruct (advance_keeps_countdown_within_period (λ _, 0) t 27000 0)
    as (t' & k' & Hrun & Hc & Hs).
  - reflexivity.
  - vm_compute. split; discriminate.
  - vm_compute. discriminate.
  - vm_compute. discriminate.
  - vm_compute. split; discriminate.
  - exists t', k'. split; [exact Hrun|]. by rewrite Hs in Hc.
Defined.

(** ** SetSpeed composes *)

Lemma wrap_sub_l x y : Long.wrap (Long.wrap x - y) = Long.wrap (x - y).
Proof.
  replace (Long.wrap x - y) with (Long.wrap x + - y) by lia.
  rewrite wrap_add_l. reflexivity.
Qed.

Lemma set_speed_run debugmode this s w t :
  heap w !! this = Some t →
  0 < s →
  al_timer_set_speed debugmode this s w
    = Done (assign this
              (set_speed_usecs (Long.mul s 1000)
                 (if started t
                  then set_counter
                         (Long.wrap (counter t - speed_usecs t
                                     + Long.mul s 1000)) t
                  else t)) w).
Proof.
  intros Hlook Hpos. unfold al_timer_set_speed.
  replace (0 <? s) with true by (symmetry; by apply Z.ltb_lt).
  rewrite ASSERT_true, (deref_Some _ _ _ Hlook). simpl.
  destruct (started t); [|done]. simpl.
  unfold Long.add, Long.sub. by rewrite wrap_add_l.
Qed.

(** X8: two SetSpeed calls in a row leave exactly what the second one alone
    would have left: the countdown is rebased once, from the first period
    to the last, also when the arithmetic wraps.  Setting the old speed
    again therefore restores the timer as it was. *)
Theorem set_speed_twice_is_last_set_speed
    (debugmode : bool) (this : ptr) (s1 s2 : msecs_t)
    (w : world) (t : ALLEGRO_TIMER) :
  heap w !! this = Some t →
  0 < s1 →
  0 < s2 →
  ∃ w1,
    al_timer_set_speed debugmode this s1 w = Done w1
    ∧ al_timer_set_speed debugmode this s2 w1
      = al_timer_set_speed debugmode this s2 w
    ∧ (speed_usecs t = Long.mul s2 1000 →
       Long.in_range (counter t) →
       al_timer_set_speed debugmode this s2 w1 = Done w).
Proof.
  intros Hlook H1 H2.
  rewrite (set_speed_run debugmode this s1 w t Hlook H1).
  eexists. split; [reflexivity|].
  set (P1 := Long.mul s1 1000). set (P2 := Long.mul s2 1000).
  assert (Hcomp :
    al_timer_set_speed debugmode this s2
      (assign this
         (set_speed_usecs P1
            (if started t
             then set_counter (Long.wrap (counter t - speed_usecs t + P1)) t
             else t)) w)
    = al_timer_set_speed debugmode this s2 w).
  { rewrite (set_speed_run debugmode this s2 w t Hlook H2).
    erewrite set_speed_run; [|simpl; apply lookup_insert_eq|done].
    fold P2. f_equal. unfold assign, set_heap. simpl.
    rewrite insert_insert_eq. do 2 f_equal.
    destruct (started t) eqn:Hs; simpl; rewrite ?Hs; simpl; [|done].
    unfold set_speed_usecs, set_counter. simpl. f_equal.
    replace (Long.wrap (counter t - speed_usecs t + P1) - P1 + P2)
      with (Long.wrap (counter t - speed_usecs t + P1) + (- P1 + P2)) by lia.
    rewrite wrap_add_l. f_equal. lia. }
  split; [exact Hcomp|].
  intros Hsame Hr. rewrite Hcomp.
  rewrite (set_speed_run debugmode this s2 w t Hlook H2). fold P2.
  f_equal. destruct w as [h a th k]. unfold assign, set_heap. simpl in *.
  f_equal. apply insert_id. rewrite Hlook. f_equal.
  destruct t as [tes tst tsp tco tcn]. simpl in *.
  unfold set_speed_usecs, set_counter. subst tsp.
  destruct tst; simpl; [|done].
  f_equal. replace (tcn - P2 + P2) with tcn by lia. symmetry. by apply wrap_id.
Qed.

Lemma set_speed_twice_is_last_set_speed_witness :
  ∃ w1,
    al_timer_set_speed true 1%positive 25 one_timer_started = Done w1
    ∧ al_timer_set_speed true 1%positive 10 w1 = Done one_timer_started.
Proof.
  destruct (set_speed_twice_is_last_set_speed true 1%positive 25 10
              one_timer_started
              {| es := _al_event_source_init; started := true;
                 speed_usecs := 10000; count := 0; counter := 10000 |})
    as (w1 & Hrun & _ & Hback).
  - reflexivity.
  - reflexivity.
  - reflexivity.
  - exists w1. split; [exact Hrun|]. apply Hback.
    + reflexivity.
    + vm_compute. split; discriminate.
Defined.

(** ** The loop of the driver thread *)

Lemma select_delay_small l :
  0 < interval l <= 32768 →
  select_delay l = {| tv_sec := 0; tv_usec := interval l |}.
Proof.
  intros Hi. unfold select_delay, Long.div, Long.rem.
  rewrite Z.quot_small, Z.rem_small by lia. f_equal.
Qed.

Lemma timer_thread_proc_iteration_runs clock new_time l w :
  periods_ok w (active_timers w) →
  ∃ d w',
    runs_to (λ fuel, timer_thread_proc_iteration fuel clock new_time l w)
      ({| old_time := new_time; interval := d |}, w')
    ∧ 0 < d <= 32768
    ∧ active_timers w' = active_timers w
    ∧ periods_ok w' (active_timers w').
Proof.
  intros Hok. unfold timer_thread_proc_iteration, timer_thread_handle_tick.
  destruct (handle_tick_slots_spec clock
              (Long.add
                 (Long.mul (Long.sub (tv_sec new_time) (tv_sec (old_time l)))
                    1000000)
                 (Long.sub (tv_usec new_time) (tv_usec (old_time l))))
              (active_timers w) default_delay w Hok)
    as (d & w' & [n Hrun] & Hact & _ & _ & Hlive & _ & Hle & Hpos & _).
  exists d, w'. split; [|split; [|split]].
  - exists n. intros m Hm. by rewrite (Hrun m Hm).
  - change default_delay with 32768 in Hle, Hpos. split; [by apply Hpos|done].
  - done.
  - rewrite Hact. intros p Hp. destruct (Hok p Hp) as (t & Ht & HP & HPr).
    destruct (Hlive p t Ht) as (t' & Ht' & Hs & _).
    exists t'. by rewrite Hs.
Qed.

Lemma timer_thread_proc_loop_runs clock : ∀ wakes l w,
  periods_ok w (active_timers w) →
  0 < interval l <= 32768 →
  ∃ delays l' w',
    runs_to (λ fuel, timer_thread_proc_loop fuel clock wakes l w)
      (delays, (l', w'))
    ∧ length delays = length wakes
    ∧ Forall (λ d, tv_sec d = 0 ∧ 0 < tv_usec d <= 32768) delays
    ∧ active_timers w' = active_timers w.
Proof.
  induction wakes as [|new_time wakes IH]; intros l w Hok Hi.
  - exists [], l, w. split; [by exists 0%nat|]. repeat split. constructor.
  - destruct (timer_thread_proc_iteration_runs clock new_time l w Hok)
      as (d & w1 & [n1 Hrun1] & Hd & Hact1 & Hok1).
    destruct (IH {| old_time := new_time; interval := d |} w1 Hok1 Hd)
      as (delays & l' & w' & [n2 Hrun2] & Hlen & Hall & Hact).
    exists (select_delay l :: delays), l', w'. split; [|split; [|split]].
    + exists (n1 `max` n2)%nat. intros m Hm. simpl.
      rewrite (Hrun1 m) by lia. simpl. rewrite (Hrun2 m) by lia. done.
    + simpl. by rewrite Hlen.
    + constructor; [|done]. rewrite (select_delay_small l Hi). simpl. lia.
    + by rewrite Hact.
Qed.

(** X9: the driver thread never asks for a sleep of more than the idle
    interval.  Run on its own over timers with positive periods, the loop
    of [timer_thread_proc] gets through every iteration, whatever the clock
    reads, and each delay it hands to [select] is 0 seconds and between 1
    and 32768 microseconds; the registry is the same at the end. *)
Theorem driver_thread_sleeps_at_most_idle_interval
    (clock : nat → Z) (start : timeval) (wakes : list timeval) (w : world) :
  periods_ok w (active_timers w) →
  ∃ delays l' w',
    runs_to (λ fuel, timer_thread_proc fuel clock start wakes w)
      (delays, (l', w'))
    ∧ length delays = length wakes
    ∧ Forall (λ d, tv_sec d = 0 ∧ 0 < tv_usec d <= 32768) delays
    ∧ active_timers w' = active_timers w.
Proof.
  intros Hok. unfold timer_thread_proc.
  apply timer_thread_proc_loop_runs; [done|]. simpl. lia.
Qed.

Lemma one_timer_started_periods_ok :
  periods_ok one_timer_started (active_timers one_timer_started).
Proof.
  intros p Hp. apply list_elem_of_singleton in Hp as ->.
  eexists. split; [reflexivity|]. split; [reflexivity|].
  vm_compute. split; discriminate.
Qed.

Lemma driver_thread_sleeps_at_most_idle_interval_witness :
  ∃ delays l' w',
    runs_to (λ fuel, timer_thread_proc fuel (λ _, 0)
                       {| tv_sec := 100; tv_usec := 0 |}
                       [ {| tv_sec := 100; tv_usec := 33000 |};
                         {| tv_sec := 100; tv_usec := 40100 |} ]
                       one_timer_started)
      (delays, (l', w'))
    ∧ length delays = 2%nat.
Proof.
  destruct (driver_thread_sleeps_at_most_idle_interval (λ _, 0)
              {| tv_sec := 100; tv_usec := 0 |}
              [ {| tv_sec := 100; tv_usec := 33000 |};
                {| tv_sec := 100; tv_usec := 40100 |} ]
              one_timer_started one_timer_started_periods_ok)
    as (delays & l' & w' & Hrun & Hlen & _).
  exists delays, l', w'. split; [exact Hrun|exact Hlen].
Defined.

Example driver_thread_two_iterations :
  timer_thread_proc 5 (λ _, 0) {| tv_sec := 100; tv_usec := 0 |}
    [ {| tv_sec := 100; tv_usec := 33000 |};
      {| tv_sec := 100; tv_usec := 40100 |} ]
    one_timer_started
  = Done ([ {| tv_sec := 0; tv_usec := 32768 |};
            {| tv_sec := 0; tv_usec := 7000 |} ],
          ({| old_time := {| tv_sec := 100; tv_usec := 40100 |};
              interval := 9900 |},
           {| heap := {[ 1%positive :=
                    {| es := _al_event_source_init; started := true;
                       speed_usecs := 10000; count := 4; counter := 9900 |} ]};
              active_timers := [1%positive];
              timer_thread := true; time_calls := 0 |})).
Proof. vm_compute. reflexivity. Qed.

(** X10: the interval the loop hands to the advance is the exact distance
    in microseconds between the two readings of the time of day, negative
    when the clock was set back, as long as the readings have their
    microseconds below one million and lie less than 9 * 10^12 seconds
    apart. *)
Theorem elapsed_time_is_exact
    (fuel : nat) (clock : nat → Z) (new_time : timeval) (l : thread_locals)
    (w : world) :
  0 <= tv_usec new_time < 1000000 →
  0 <= tv_usec (old_time l) < 1000000 →
  - 9000000000000 <= tv_sec new_time - tv_sec (old_time l) <= 9000000000000 →
  timer_thread_proc_iteration fuel clock new_time l w
  = ('(next, w') ← timer_thread_handle_tick fuel clock
                     (total_usecs new_time - total_usecs (old_time l)) w;
     mret ({| old_time := new_time; interval := next |}, w')).
Proof.
  intros Hn Ho Hs. unfold timer_thread_proc_iteration, total_usecs.
  rewrite (sub_exact (tv_sec new_time)) by (rewrite in_range_bounds; lia).
  rewrite (sub_exact (tv_usec new_time)) by (rewrite in_range_bounds; lia).
  rewrite mul_exact by (rewrite in_range_bounds; lia).
  rewrite add_exact by (rewrite in_range_bounds; lia).
  do 3 f_equal. lia.
Qed.

Lemma elapsed_time_is_exact_witness :
  timer_thread_proc_iteration 3 (λ _, 0)
    {| tv_sec := 99; tv_usec := 700000 |}
    {| old_time := {| tv_sec := 100; tv_usec := 200000 |}; interval := 5000 |}
    one_timer_started
  = ('(next, w') ← timer_thread_handle_tick 3 (λ _, 0) (- 500000)
                     one_timer_started;
     mret ({| old_time := {| tv_sec := 99; tv_usec := 700000 |};
              interval := next |}, w')).
Proof.
  apply (elapsed_time_is_exact 3 (λ _, 0)
           {| tv_sec := 99; tv_usec := 700000 |}
           {| old_time := {| tv_sec := 100; tv_usec := 200000 |};
              interval := 5000 |}
           one_timer_started); simpl; lia.
Defined.

(** ** Each timer is advanced on its own *)

Lemma catch_up_mono clock : ∀ fuel fuel' t k r,
  catch_up fuel clock t k = Done r → (fuel ≤ fuel')%nat →
  catch_up fuel' clock t k = Done r.
Proof.
  induction fuel as [|fuel IH]; intros fuel' t k r Hrun Hle.
  - simpl in Hrun. destruct (counter t <=? 0) eqn:E; [done|].
    injection Hrun as <-. apply catch_up_done. by apply Z.leb_gt.
  - destruct fuel' as [|fuel']; [lia|].
    simpl in Hrun |- *. destruct (counter t <=? 0); [|done].
    destruct (timer_handle_tick _ _ _) as [t2 k2].
    apply (IH fuel'); [done|lia].
Qed.

Lemma handle_tick_slots_each fuel clock e : ∀ slots nd w d w',
  handle_tick_slots fuel clock e slots nd w = Done (d, w') →
  NoDup slots →
  ∀ p t, p ∈ slots → heap w !! p = Some t →
    ∃ k t' k',
      advance_timer fuel clock e t k = Done (t', k')
      ∧ heap w' !! p = Some t'.
Proof.
  induction slots as [|q rest IH]; intros nd w d w' Hrun Hnd p t Hin Ht.
  - by apply elem_of_nil in Hin.
  - apply NoDup_cons in Hnd as [Hq Hnd]. simpl in Hrun. unfold deref in Hrun.
    destruct (heap w !! q) as [tq|] eqn:Htq; [simpl in Hrun|done].
    destruct (advance_timer fuel clock e tq (time_calls w))
      as [[t1 k1]|] eqn:Hadv; [simpl in Hrun|done].
    destruct (decide (p = q)) as [->|Hne].
    + assert (tq = t) as -> by congruence.
      exists (time_calls w), t1, k1. split; [done|].
      rewrite (handle_tick_slots_untouched _ _ _ _ _ _ _ _ Hrun q Hq).
      simpl. apply lookup_insert_eq.
    + apply elem_of_cons in Hin as [?|Hin]; [done|].
      apply (IH _ _ _ _ Hrun Hnd p t Hin). simpl.
      by rewrite lookup_insert_ne.
Qed.

(** X12: in one cycle every active timer is advanced by its own period
    only.  For a duplicate-free registry of live timers with positive
    periods the cycle returns, and each active timer ends with the countdown
    and the tick count that the elapsed time and its own period give:
    countdown [d + n * P] and count [count + n] (as a [long]), where [d] is
    the countdown less the elapsed time and [n] the number of rounds for [d]
    and [P], whatever the other timers are. *)
Theorem cycle_advances_each_timer_on_its_own
    (clock : nat → Z) (e : usecs_t) (w : world) :
  periods_ok w (active_timers w) →
  NoDup (active_timers w) →
  ∃ next w',
    runs_to (λ fuel, timer_thread_handle_tick fuel clock e w) (next, w')
    ∧ ∀ p t, p ∈ active_timers w → heap w !! p = Some t →
        Long.in_range (count t) →
        let d := Long.sub (counter t) e in
        let n := rounds d (speed_usecs t) in
        ∃ t', heap w' !! p = Some t'
              ∧ counter t' = d + n * speed_usecs t
              ∧ count t' = Long.wrap (count t + n)
              ∧ speed_usecs t' = speed_usecs t
              ∧ started t' = started t.
Proof.
  intros Hok Hnd.
  destruct (handle_tick_slots_spec clock e (active_timers w) default_delay w Hok)
    as (next & w' & [nh Hrun] & _).
  exists next, w'. split; [by exists nh|].
  intros p t Hin Ht Hr d n.
  destruct (Hok p Hin) as (t_ & Ht_ & HP & HPr).
  assert (t_ = t) as -> by congruence.
  destruct (handle_tick_slots_each nh clock e _ _ _ _ _
              (Hrun nh (le_n _)) Hnd p t Hin Ht)
    as (k & t' & k' & Hadv & Ht').
  exists t'. split; [done|].
  set (t0 := set_counter d t).
  destruct (catch_up_rounds clock t0 k) as [[na Hrun_a] Hcnt]; try done.
  { apply wrap_in_range. }
  unfold advance_timer in Hadv. fold d t0 in Hadv.
  pose proof (catch_up_mono clock nh (nh `max` na)%nat t0 k (t', k') Hadv
                ltac:(lia)) as Hbig.
  rewrite (Hrun_a (nh `max` na)%nat ltac:(lia)) in Hbig.
  change (counter t0) with d in Hbig, Hcnt.
  change (speed_usecs t0) with (speed_usecs t) in Hbig, Hcnt.
  fold n in Hbig, Hcnt.
  destruct (rounds_spec d (speed_usecs t) HP) as (Hn0 & _ & _). fold n in Hn0.
  pose proof (iter_fire_count clock (Z.to_nat n) (t0, k) Hr) as Hcount.
  pose proof (iter_fire_speed clock (Z.to_nat n) (t0, k)) as Hspeed.
  pose proof (iter_fire_started clock (Z.to_nat n) (t0, k)) as Hstarted.
  injection Hbig as Hbig. rewrite Hbig in Hcnt, Hcount, Hspeed, Hstarted.
  cbn [fst] in Hcnt, Hcount, Hspeed, Hstarted.
  rewrite Z2Nat.id in Hcount by done.
  repeat split; done.
Qed.

Lemma cycle_advances_each_timer_on_its_own_witness :
  let t1 := {| es := _al_event_source_init; started := true;
               speed_usecs := 10000; count := 0; counter := 10000 |} in
  let t2 := {| es := _al_event_source_init; started := true;
               speed_usecs := 25000; count := 0; counter := 25000 |} in
  let w := {| heap := {[ 1%positive := t1; 2%positive := t2 ]};
              active_timers := [1%positive; 2%positive];
              timer_thread := true; time_calls := 0 |} in
  ∃ next w' t2',
    runs_to (λ fuel, timer_thread_handle_tick fuel (λ _, 0) 100000 w)
      (next, w')
    ∧ heap w' !! 2%positive = Some t2'
    ∧ counter t2' = 25000
    ∧ count t2' = 4.
Proof.
  intros t1 t2 w.
  destruct (cycle_advances_each_timer_on_its_own (λ _, 0) 100000 w)
    as (next & w' & Hrun & Heach).
  - intros p Hp.
    apply elem_of_cons in Hp as [->|Hp];
      [|apply list_elem_of_singleton in Hp as ->].
    + exists t1. split; [reflexivity|]. split; [reflexivity|].
      vm_compute. split; discriminate.
    + exists t2. split; [reflexivity|]. split; [reflexivity|].
      vm_compute. split; discriminate.
  - apply NoDup_cons. split; [|apply NoDup_singleton].
    intros Hin. apply list_elem_of_singleton in Hin. discriminate.
  - destruct (Heach 2%positive t2) as (t2' & Ht2 & Hc & Hn & _).
    + apply elem_of_cons. right. apply list_elem_of_singleton. reflexivity.
    + reflexivity.
    + vm_compute. split; discriminate.
    + exists next, w', t2'. split; [exact Hrun|]. split; [exact Ht2|].
      split; [exact Hc|exact Hn].
Defined.

(** ** Create and Destroy *)

(** X13: Destroy undoes Create.  Creating a timer at a free address and
    destroying it at once gives back the world as it was: nothing of the
    object is left in the heap, and registry and driver thread were never
    touched. *)
Theorem install_then_uninstall_restores_world
    (debugmode : bool) (p : ptr) (speed_msecs : msecs_t) (w : world) :
  heap w !! p = None →
  0 < speed_msecs →
  ∃ w1,
    al_install_timer debugmode (Some p) speed_msecs w = Done (Some p, w1)
    ∧ al_timer_is_started p w1 = Done false
    ∧ al_timer_get_count p w1 = Done 0
    ∧ al_uninstall_timer p w1 = Done w.
Proof.
  intros Hfree Hpos. unfold al_install_timer.
  replace (0 <? speed_msecs) with true by (symmetry; by apply Z.ltb_lt).
  rewrite !ASSERT_true. simpl. eexists. split; [reflexivity|].
  unfold al_timer_is_started, al_timer_get_count, al_uninstall_timer,
    al_stop_timer, deref. simpl. rewrite lookup_insert_eq. simpl.
  repeat split. f_equal. destruct w as [h a th k]. unfold set_heap. simpl in *.
  f_equal. rewrite delete_insert_eq. by apply delete_id.
Qed.

Lemma install_then_uninstall_restores_world_witness :
  ∃ w1,
    al_install_timer true (Some 2%positive) 25 one_timer_started
      = Done (Some 2%positive, w1)
    ∧ al_uninstall_timer 2%positive w1 = Done one_timer_started.
Proof.
  destruct (install_then_uninstall_restores_world true 2%positive 25
              one_timer_started)
    as (w1 & Hrun & _ & _ & Hback); [reflexivity | reflexivity |].
  exists w1. split; [exact Hrun|exact Hback].
Defined.

(** * Properties with side conditions *)

(** ** The tick count at the end of its range *)

(** The claim of C7 fails at the largest [long]: after SetCount(LONG_MAX)
    and Start, the tick fired by the next cycle takes the count to
    LONG_MIN, which is not one more. *)
Lemma tick_counts_whatever_the_event_source_counterexample :
  ∃ w1 w2 w3 next w4,
    al_install_timer true (Some 1%positive) 10 initial_world
      = Done (Some 1%positive, w1)
    ∧ al_timer_set_count 1%positive 9223372036854775807 w1 = Done w2
    ∧ al_start_timer 1%positive w2 = Done w3
    ∧ al_timer_get_count 1%positive w3 = Done 9223372036854775807
    ∧ timer_thread_handle_tick 1 (λ _, 0) 10000 w3 = Done (next, w4)
    ∧ al_timer_get_count 1%positive w4 = Done (- 9223372036854775808)
    ∧ - 9223372036854775808 ≠ 9223372036854775807 + 1.
Proof.
  eexists _, _, _, _, _.
  split; [reflexivity|]. split; [reflexivity|]. split; [reflexivity|].
  split; [reflexivity|]. split; [vm_compute; reflexivity|].
  split; [reflexivity|]. discriminate.
Qed.

(** C7, amended: a fired tick adds exactly one to the tick count as long as
    the count is below the largest [long], and takes it from the largest to
    the smallest [long] otherwise, whatever the event source does.  Without
    a subscriber, or when no event buffer can be acquired, nothing is
    published and nothing but the count changes; when an event is published
    it is appended to the channel with type TIMER, the current clock reading
    and the count after the increment. *)
Theorem tick_counts_whatever_the_event_source
    (clock : nat → Z) (t : ALLEGRO_TIMER) (k : nat) :
  Long.in_range (count t) →
  let t' := (timer_handle_tick clock t k).1 in
  let k' := (timer_handle_tick clock t k).2 in
  (count t < Long.max_signed → count t' = count t + 1)
  ∧ (count t = Long.max_signed → count t' = Long.min_signed)
  ∧ started t' = started t
  ∧ speed_usecs t' = speed_usecs t
  ∧ counter t' = counter t
  ∧ (_al_event_source_needs_to_generate_event (es t) = false →
       es t' = es t ∧ k' = k)
  ∧ (_al_event_source_needs_to_generate_event (es t) = true →
     _al_event_source_get_unused_event (es t) = None →
       es t' = es t ∧ k' = k)
  ∧ (_al_event_source_needs_to_generate_event (es t) = true →
     is_Some (_al_event_source_get_unused_event (es t)) →
       es_emitted (es t') =
         es_emitted (es t) ++ [ {| ev_type := ALLEGRO_EVENT_TIMER;
                                   ev_timestamp := clock k;
                                   ev_count := count t' |} ]
       ∧ es_queues (es t') = es_queues (es t)
       ∧ k' = S k).
Proof.
  intros Hr t' k'.
  assert (Hcount : count t' = Long.add (count t) 1)
    by apply timer_handle_tick_count.
  split.
  { intros Hmax. rewrite Hcount. apply add_exact. rewrite in_range_bounds in *.
    change Long.max_signed with 9223372036854775807 in Hmax. lia. }
  split; [intros Hmax; by rewrite Hcount, Hmax|].
  split; [apply timer_handle_tick_started|].
  split; [apply timer_handle_tick_speed|].
  split; [apply timer_handle_tick_counter|].
  rewrite Hcount. clear Hcount.
  subst t' k'. unfold timer_handle_tick. simpl.
  destruct (_al_event_source_needs_to_generate_event (es t)).
  - split; [done|].
    destruct (_al_event_source_get_unused_event (es t)) as [es1|] eqn:Hget.
    + split; [done|]. intros _ _. simpl.
      unfold _al_event_source_get_unused_event in Hget.
      destruct (es_unused (es t)); [done|].
      by injection Hget as <-.
    + split; [done|]. intros _ [? ?]. done.
  - split; [done|]. split; intros; done.
Qed.

Lemma tick_counts_whatever_the_event_source_witness :
  let t := {| es := {| es_queues := 1; es_unused := 0; es_emitted := [] |};
              started := true; speed_usecs := 1000; count := 41;
              counter := 1000 |} in
  count (timer_handle_tick (λ _, 7) t 0).1 = 42
  ∧ es (timer_handle_tick (λ _, 7) t 0).1 = es t.
Proof.
  intros t.
  destruct (tick_counts_whatever_the_event_source (λ _, 7) t 0)
    as (Hc & _ & _ & _ & _ & _ & Hdrop & _).
  - vm_compute. split; discriminate.
  - split; [apply Hc; reflexivity|]. apply Hdrop; reflexivity.
Defined.

(** ** Create *)



(** ** SetSpeed *)




(** ** Periods are [long]s in every reachable world *)

Lemma catch_up_speed fuel clock : ∀ t k t' k',
  catch_up fuel clock t k = Done (t', k') → speed_usecs t' = speed_usecs t.
Proof.
  induction fuel as [|fuel IH]; intros t k t' k'; simpl.
  - destruct (counter t <=? 0); [done|]. by intros [= <- <-].
  - destruct (counter t <=? 0); [|by intros [= <- <-]].
    destruct (timer_handle_tick _ _ _) as [t2 k2] eqn:Ht.
    intros H. apply IH in H. rewrite H.
    change t2 with (t2, k2).1. rewrite <- Ht.
    by rewrite timer_handle_tick_speed.
Qed.

Lemma handle_tick_slots_speed fuel clock e : ∀ slots nd w d w',
  handle_tick_slots fuel clock e slots nd w = Done (d, w') →
  ∀ q, speed_usecs <$> heap w' !! q = speed_usecs <$> heap w !! q.
Proof.
  induction slots as [|p rest IH]; intros nd w d w'; simpl.
  - by intros [= <- <-].
  - unfold deref. destruct (heap w !! p) as [t|] eqn:Ht; [simpl|done].
    destruct (advance_timer fuel clock e t (time_calls w))
      as [[t1 k1]|] eqn:Hadv; [simpl|done].
    intros H q. rewrite (IH _ _ _ _ H q). simpl.
    destruct (decide (q = p)) as [->|Hne].
    + rewrite lookup_insert_eq, Ht. simpl. f_equal.
      unfold advance_timer in Hadv. by apply catch_up_speed in Hadv.
    + by rewrite lookup_insert_ne.
Qed.

Lemma speed_in_range_step w w' :
  (∀ p t, heap w !! p = Some t → Long.in_range (speed_usecs t)) →
  step w w' →
  ∀ p t, heap w' !! p = Some t → Long.in_range (speed_usecs t).
Proof.
  intros Hinv Hstep.
  assert (Hkeep : ∀ w1,
            (∀ q, speed_usecs <$> heap w1 !! q = speed_usecs <$> heap w !! q) →
            ∀ p t, heap w1 !! p = Some t → Long.in_range (speed_usecs t)).
  { intros w1 Hsame p t Ht. specialize (Hsame p). rewrite Ht in Hsame.
    destruct (heap w !! p) as [t0|] eqn:Ht0; [|done].
    injection Hsame as ->. by apply (Hinv p t0). }
  assert (Hstop : ∀ this w1, al_stop_timer this w = Done w1 →
            ∀ q, speed_usecs <$> heap w1 !! q = speed_usecs <$> heap w !! q).
  { intros this w1. unfold al_stop_timer, deref.
    destruct (heap w !! this) as [t|] eqn:Ht; [simpl|done].
    destruct (started t); simpl; [|by intros [= <-]].
    destruct (Nat.eqb _ _); intros [= <-] q; simpl;
      (destruct (decide (q = this)) as [->|Hne];
       [by rewrite lookup_insert_eq, Ht|by rewrite lookup_insert_ne]). }
  inversion Hstep as
    [dbg malloc s w0 r w0' Hfresh Hrun | this w0 w0' Hrun | this w0 w0' Hrun
    | this w0 w0' Hrun | dbg this s w0 w0' Hrun | this v w0 w0' Hrun
    | fuel clock e w0 d w0' Hrun | this t es' w0 Ht ]; subst.
  - unfold al_install_timer in Hrun.
    destruct (ASSERT dbg (0 <? s)); [simpl in Hrun|done].
    destruct (ASSERT dbg (bool_decide (is_Some malloc))); [simpl in Hrun|done].
    destruct malloc as [p0|]; injection Hrun as <- <-; [|done].
    intros p t. simpl. destruct (decide (p = p0)) as [->|Hne].
    + rewrite lookup_insert_eq. intros [= <-]. simpl. apply wrap_in_range.
    + rewrite lookup_insert_ne by done. apply Hinv.
  - unfold al_uninstall_timer in Hrun.
    destruct (al_stop_timer this w) as [w1|] eqn:Hs; [simpl in Hrun|done].
    injection Hrun as <-. intros p t. simpl.
    destruct (decide (p = this)) as [->|Hne].
    + by rewrite lookup_delete_eq.
    + rewrite lookup_delete_ne by done. by apply (Hkeep w1), (Hstop this).
  - apply Hkeep. intros q.
    unfold al_start_timer, deref in Hrun.
    destruct (heap w !! this) as [t|] eqn:Ht; [simpl in Hrun|done].
    destruct (started t); [by injection Hrun as <-|].
    destruct (Nat.eqb _ _); injection Hrun as <-; simpl;
      (destruct (decide (q = this)) as [->|Hne];
       [by rewrite lookup_insert_eq, Ht|by rewrite lookup_insert_ne]).
  - by apply Hkeep, (Hstop this).
  - unfold al_timer_set_speed, deref in Hrun.
    destruct (ASSERT dbg (0 <? s)); [simpl in Hrun|done].
    destruct (heap w !! this) as [t|] eqn:Ht; [simpl in Hrun|done].
    injection Hrun as <-. intros p t0. simpl.
    destruct (decide (p = this)) as [->|Hne].
    + rewrite lookup_insert_eq. intros [= <-]. simpl. apply wrap_in_range.
    + rewrite lookup_insert_ne by done. apply Hinv.
  - apply Hkeep. intros q.
    unfold al_timer_set_count, deref in Hrun.
    destruct (heap w !! this) as [t|] eqn:Ht; [simpl in Hrun|done].
    injection Hrun as <-. simpl.
    destruct (decide (q = this)) as [->|Hne];
      [by rewrite lookup_insert_eq, Ht|by rewrite lookup_insert_ne].
  - apply Hkeep. by apply (handle_tick_slots_speed _ _ _ _ _ _ _ _ Hrun).
  - apply Hkeep. intros q. simpl.
    destruct (decide (q = this)) as [->|Hne];
      [by rewrite lookup_insert_eq, Ht|by rewrite lookup_insert_ne].
Qed.

Lemma speed_in_range_reachable w :
  reachable w →
  ∀ p t, heap w !! p = Some t → Long.in_range (speed_usecs t).
Proof.
  induction 1 as [|w w' _ IH Hstep].
  - intros p t. simpl. by rewrite lookup_empty.
  - by apply (speed_in_range_step w).
Qed.

Lemma registry_live_reachable w :
  reachable w → ∀ q, q ∈ active_timers w → is_Some (heap w !! q).
Proof.
  intros Hreach q Hq.
  destruct (registry_inv_reachable w Hreach) as [_ Hreg].
  apply Hreg in Hq. by destruct (heap w !! q).
Qed.

(** ** What the advance of one timer returns *)

Lemma advance_timer_result fuel clock e t k r :
  0 < speed_usecs t → Long.in_range (speed_usecs t) →
  advance_timer fuel clock e t k = Done r →
  r = Nat.iter
        (Z.to_nat (rounds (Long.sub (counter t) e) (speed_usecs t)))
        (fire clock) (set_counter (Long.sub (counter t) e) t, k).
Proof.
  intros HP HPr Hadv. unfold advance_timer in Hadv.
  destruct (catch_up_rounds clock
              (set_counter (Long.sub (counter t) e) t) k)
    as [[na Hrun] _]; try done.
  { apply wrap_in_range. }
  pose proof (catch_up_mono clock fuel (fuel `max` na)%nat _ k r Hadv
                ltac:(lia)) as Hbig.
  rewrite (Hrun (fuel `max` na)%nat ltac:(lia)) in Hbig.
  by injection Hbig as <-.
Qed.

(** ** The catch-up loop in a cycle *)

(** The claim of C1 fails when [c - e] is not a [long].  After
    Create(9223372036854775 ms) and Start, countdown and period are
    9223372036854775000; in a cycle in which the clock had gone back by 1000
    microseconds [c - e] is positive, so the claim promises no tick, but the
    subtraction wraps and the timer fires 2 ticks. *)
Lemma advance_fires_one_tick_per_period_crossed_counterexample :
  ∃ w1 w2 t2 next w3 t3,
    al_install_timer true (Some 1%positive) 9223372036854775 initial_world
      = Done (Some 1%positive, w1)
    ∧ al_start_timer 1%positive w1 = Done w2
    ∧ heap w2 !! 1%positive = Some t2
    ∧ counter t2 = 9223372036854775000
    ∧ speed_usecs t2 = 9223372036854775000
    ∧ count t2 = 0
    ∧ 0 < counter t2 - (- 1000)
    ∧ timer_thread_handle_tick 2 (λ _, 0) (- 1000) w2 = Done (next, w3)
    ∧ heap w3 !! 1%positive = Some t3
    ∧ count t3 = 2
    ∧ counter t3 ≠ counter t2 - (- 1000).
Proof.
  eexists _, _, _, _, _, _.
  split; [reflexivity|]. split; [reflexivity|]. split; [reflexivity|].
  split; [reflexivity|]. split; [reflexivity|]. split; [reflexivity|].
  split; [reflexivity|]. split; [vm_compute; reflexivity|].
  split; [reflexivity|]. split; [reflexivity|]. discriminate.
Qed.

(** C1, amended: the catch-up loop fires one tick per period boundary
    crossed.  When a cycle of the driver thread processes a running timer
    with countdown [c] and period [P > 0], and the elapsed time [e] is such
    that [c - e] is a [long], the timer goes through exactly
    [max(0, floor((e - c) / P) + 1)] rounds of the loop body when
    [c - e <= 0] and through none otherwise, however many that is: its
    processing returns, and every cycle that returns leaves the timer as
    that many ticks leave it, with countdown [c - e + ticks * P], which is
    strictly positive, and the tick count grown by the number of ticks.
    Measured from a countdown of one full period the number of ticks is
    [floor(e / P)], 3 for a stall of 3.5 periods.  The cycle returns when
    every active timer has a positive period. *)
Theorem advance_fires_one_tick_per_period_crossed
    (clock : nat → Z) (e : usecs_t) (w : world) (p : ptr)
    (t : ALLEGRO_TIMER) :
  reachable w →
  p ∈ active_timers w →
  heap w !! p = Some t →
  0 < speed_usecs t →
  Long.in_range (counter t - e) →
  let c := counter t in
  let P := speed_usecs t in
  let ticks := if c - e <=? 0 then Z.max 0 ((e - c) / P + 1) else 0 in
  let final := λ k : nat,
    Nat.iter (Z.to_nat ticks) (fire clock) (set_counter (c - e) t, k) in
  (∀ k, runs_to (λ fuel, advance_timer fuel clock e t k) (final k))
  ∧ (∀ fuel next w',
       timer_thread_handle_tick fuel clock e w = Done (next, w') →
       ∃ k, heap w' !! p = Some (final k).1)
  ∧ (periods_ok w (active_timers w) →
       ∃ next w' k,
         runs_to (λ fuel, timer_thread_handle_tick fuel clock e w) (next, w')
         ∧ heap w' !! p = Some (final k).1)
  ∧ (∀ k,
       counter (final k).1 = c - e + ticks * P
       ∧ 0 < counter (final k).1
       ∧ speed_usecs (final k).1 = P
       ∧ started (final k).1 = started t
       ∧ (Long.in_range (count t) →
            count (final k).1 = Long.wrap (count t + ticks)))
  ∧ (c = P → 0 <= e → ticks = e / P)
  ∧ (c = P → 2 * e = 7 * P → ticks = 3).
Proof.
  intros Hreach Hin Ht HP Hd c P ticks final.
  pose proof (speed_in_range_reachable w Hreach p t Ht) as HPr.
  destruct (registry_inv_reachable w Hreach) as [Hnd _].
  assert (Hticks : ticks = rounds (c - e) P).
  { subst ticks. unfold rounds. replace (- (c - e)) with (e - c) by lia.
    destruct (c - e <=? 0) eqn:E; [|done].
    apply Z.leb_le in E.
    pose proof (Z.div_pos (e - c) P ltac:(lia) HP). lia. }
  assert (Hsub : Long.sub (counter t) e = c - e) by by apply sub_exact.
  destruct (rounds_spec (c - e) P HP) as (Hn0 & Hpos & _).
  assert (Hfinal : ∀ k,
    runs_to (λ fuel, catch_up fuel clock (set_counter (c - e) t) k) (final k)
    ∧ counter (final k).1 = c - e + ticks * P).
  { intros k.
    destruct (catch_up_rounds clock (set_counter (c - e) t) k) as [Hrun Hcnt];
      simpl; try done.
    simpl in Hrun, Hcnt. fold c P in Hrun, Hcnt.
    rewrite <- Hticks in Hrun, Hcnt. by split. }
  assert (Hcycle : ∀ fuel next w',
    timer_thread_handle_tick fuel clock e w = Done (next, w') →
    ∃ k, heap w' !! p = Some (final k).1).
  { intros fuel next w' Hrun.
    destruct (handle_tick_slots_each fuel clock e _ _ _ _ _ Hrun Hnd p t Hin Ht)
      as (k & t' & k' & Hadv & Ht').
    apply advance_timer_result in Hadv; [|done|done].
    rewrite Hsub in Hadv. fold P in Hadv. rewrite <- Hticks in Hadv.
    exists k. rewrite Ht'. f_equal. subst final. simpl. by rewrite <- Hadv. }
  split.
  { intros k. unfold advance_timer. rewrite Hsub. apply Hfinal. }
  split; [exact Hcycle|].
  split.
  { intros Hok.
    destruct (handle_tick_slots_spec clock e (active_timers w) default_delay
                w Hok) as (next & w' & [n Hrun] & _).
    destruct (Hcycle n next w' (Hrun n (le_n _))) as [k Hk].
    exists next, w', k. split; [by exists n|done]. }
  split.
  { intros k. destruct (Hfinal k) as [_ Hcnt].
    split; [done|]. split; [rewrite Hcnt, Hticks; lia|].
    split; [subst final; cbv beta; by rewrite iter_fire_speed|].
    split; [subst final; cbv beta; by rewrite iter_fire_started|].
    intros Hr. subst final. cbv beta. rewrite iter_fire_count by done. simpl.
    rewrite Z2Nat.id; [done|lia]. }
  assert (Hfloor : c = P → 0 <= e → ticks = e / P).
  { intros HcP He. rewrite Hticks. unfold rounds. rewrite HcP.
    destruct (P - e <=? 0) eqn:E.
    - apply Z.leb_le in E. replace (- (P - e)) with (e + (-1) * P) by lia.
      rewrite Z.div_add by lia. lia.
    - apply Z.leb_gt in E. symmetry. apply Z.div_small. lia. }
  split; [exact Hfloor|].
  intros HcP He. rewrite (Hfloor HcP ltac:(lia)).
  symmetry. apply Z.div_unique with (r := e - 3 * P); lia.
Qed.

(** A stall of 3.5 periods, seen from a countdown of one full period. *)
Lemma advance_fires_one_tick_per_period_crossed_witness :
  ∃ next w' t',
    runs_to (λ fuel, timer_thread_handle_tick fuel (λ _, 0) 35000
                       one_timer_started) (next, w')
    ∧ heap w' !! 1%positive = Some t'
    ∧ counter t' = 5000
    ∧ count t' = 3.
Proof.
  destruct (advance_fires_one_tick_per_period_crossed (λ _, 0) 35000
              one_timer_started 1%positive
              {| es := _al_event_source_init; started := true;
                 speed_usecs := 10000; count := 0; counter := 10000 |}
              one_timer_started_reachable)
    as (_ & _ & Hrun & Hfacts & _).
  - apply list_elem_of_singleton. reflexivity.
  - reflexivity.
  - reflexivity.
  - vm_compute. split; discriminate.
  - destruct (Hrun one_timer_started_periods_ok) as (next & w' & k & Hr & Hh).
    destruct (Hfacts k) as (Hc & _ & _ & _ & Hn).
    eexists next, w', _. split; [exact Hr|]. split; [exact Hh|].
    split; [exact Hc|]. apply Hn. vm_compute. split; discriminate.
Defined.

(** ** A period of zero stalls the cycle *)

Lemma zero_period_started_reachable : reachable zero_period_started.
Proof.
  apply (reachable_step
           (assign 1%positive
              {| es := _al_event_source_init; started := false;
                 speed_usecs := 0; count := 0; counter := 0 |}
              initial_world)).
  - apply (reachable_step initial_world); [constructor|].
    apply (step_install true (Some 1%positive) (2 ^ 62) initial_world
             (Some 1%positive)); [|reflexivity].
    intros p _. apply lookup_empty.
  - apply (step_start 1%positive). vm_compute. reflexivity.
Qed.

Lemma catch_up_error fuel clock : ∀ t k err,
  catch_up fuel clock t k = Err err → err = OutOfFuel.
Proof.
  induction fuel as [|fuel IH]; intros t k err; simpl.
  - destruct (counter t <=? 0); [by intros [= <-]|done].
  - destruct (counter t <=? 0); [|done].
    destruct (timer_handle_tick _ _ _) as [t2 k2]. apply IH.
Qed.

Lemma handle_tick_slots_stall fuel clock e p t : ∀ slots nd w,
  (∀ q, q ∈ slots → is_Some (heap w !! q)) →
  p ∈ slots →
  heap w !! p = Some t →
  speed_usecs t = 0 →
  Long.sub (counter t) e <= 0 →
  handle_tick_slots fuel clock e slots nd w = Err OutOfFuel.
Proof.
  induction slots as [|q rest IH]; intros nd w Hlive Hin Ht HP Hc.
  - by apply elem_of_nil in Hin.
  - simpl. unfold deref.
    destruct (decide (q = p)) as [->|Hne].
    + rewrite Ht. simpl. unfold advance_timer.
      rewrite catch_up_zero_period; [done|done|apply wrap_in_range|done].
    + apply elem_of_cons in Hin as [?|Hin]; [congruence|].
      destruct (Hlive q ltac:(left)) as [tq ->]. simpl.
      destruct (advance_timer fuel clock e tq (time_calls w))
        as [[t1 k1]|err] eqn:Hadv; simpl.
      * apply IH; try done.
        -- intros r Hr. simpl. destruct (decide (r = q)) as [->|Hrq].
           ++ by rewrite lookup_insert_eq.
           ++ rewrite lookup_insert_ne by done. apply Hlive. by right.
        -- simpl. by rewrite lookup_insert_ne.
      * unfold advance_timer in Hadv. apply catch_up_error in Hadv.
        by rewrite Hadv.
Qed.

(** X6: a started timer whose stored period is 0 stalls the driver thread.
    In a reachable world, when the countdown of such a timer is not positive
    after the elapsed time has been taken off, the cycle never returns: with
    any amount of fuel it ends in the catch-up loop, out of fuel.  A period
    of 0 is what Create and SetSpeed store for 0 ms in a release build, and
    for 2^62 ms in any build. *)
Theorem zero_period_stalls_the_cycle
    (clock : nat → Z) (e : usecs_t) (w : world) (p : ptr) (t : ALLEGRO_TIMER) :
  reachable w →
  p ∈ active_timers w →
  heap w !! p = Some t →
  speed_usecs t = 0 →
  Long.sub (counter t) e <= 0 →
  ∀ fuel, timer_thread_handle_tick fuel clock e w = Err OutOfFuel.
Proof.
  intros Hreach Hin Ht HP Hc fuel.
  apply (handle_tick_slots_stall fuel clock e p t); try done.
  by apply registry_live_reachable.
Qed.

(** Create(2^62 ms) in a debug build, Start, and a first cycle. *)
Lemma zero_period_stalls_the_cycle_witness :
  ∃ w1,
    al_install_timer true (Some 1%positive) (2 ^ 62) initial_world
      = Done (Some 1%positive, w1)
    ∧ al_start_timer 1%positive w1 = Done zero_period_started
    ∧ ∀ fuel,
        timer_thread_handle_tick fuel (λ _, 0) 32768 zero_period_started
        = Err OutOfFuel.
Proof.
  eexists. split; [reflexivity|]. split; [vm_compute; reflexivity|].
  apply (zero_period_stalls_the_cycle (λ _, 0) 32768 zero_period_started
           1%positive
           {| es := _al_event_source_init; started := true;
              speed_usecs := 0; count := 0; counter := 0 |}
           zero_period_started_reachable).
  - apply list_elem_of_singleton. reflexivity.
  - reflexivity.
  - reflexivity.
  - vm_compute. discriminate.
Defined.

(** ** The sleep interval *)





